(** * Docs-Grabber: the file classifiers, the URL parse step and the
      extraction pipeline of [config.py] and [docs_grabber.py].

    Python [str] values are modelled as [string] (sequences of 8-bit
    characters); [str.lower] is modelled on the ASCII letters, where it agrees
    with Python.  Paths that reach the classifiers are kept as the strings the
    code builds with [os.path.join]; the file system itself is addressed by
    lists of path segments. *)

From Stdlib Require Import Ascii String.
From stdpp Require Import gmap strings list fin_maps.

Local Open Scope string_scope.
Local Open Scope list_scope.

(* stdpp blocks the unfolding of [String.append]; the proofs below compute
   with it. *)
#[local] Arguments String.append !_ _ / : simpl nomatch.

(** ** Python string primitives *)

Module Str.

(** [str.lower] on one ASCII character; the characters beyond ASCII, which
    Python maps by the Unicode tables, are left as they are, and the
    statements on the case of a path are made for ASCII paths. *)
Definition lower_char (a : ascii) : ascii :=
  let n := nat_of_ascii a in
  if (65 <=? n)%nat && (n <=? 90)%nat then ascii_of_nat (n + 32) else a.

(** [s.lower()]. *)
Fixpoint lower (s : string) : string :=
  match s with
  | EmptyString => EmptyString
  | String a s' => String (lower_char a) (lower s')
  end.

(** [s.startswith(p)]. *)
Fixpoint startswith (p s : string) : bool :=
  match p, s with
  | EmptyString, _ => true
  | String a p', String b s' => Ascii.eqb a b && startswith p' s'
  | String _ _, EmptyString => false
  end.

(** [s.endswith(ext)]: some suffix of [s] is [ext]. *)
Fixpoint endswith (s ext : string) : bool :=
  String.eqb s ext ||
  match s with
  | EmptyString => false
  | String _ s' => endswith s' ext
  end.

(** [pat in s]: [pat] occurs in [s] as a substring. *)
Fixpoint contains (pat s : string) : bool :=
  startswith pat s ||
  match s with
  | EmptyString => false
  | String _ s' => contains pat s'
  end.

(** [s[n:]]. *)
Fixpoint drop (n : nat) (s : string) : string :=
  match n, s with
  | O, _ => s
  | S n', String _ s' => drop n' s'
  | S _, EmptyString => EmptyString
  end.

(** [s[:n]]. *)
Fixpoint take (n : nat) (s : string) : string :=
  match n, s with
  | O, _ => EmptyString
  | S n', String a s' => String a (take n' s')
  | S _, EmptyString => EmptyString
  end.

(** The rest of [s] after the prefix [p], when [s] starts with [p]. *)
Fixpoint strip_prefix (p s : string) : option string :=
  match p, s with
  | EmptyString, _ => Some s
  | String a p', String b s' =>
      if Ascii.eqb a b then strip_prefix p' s' else None
  | String _ _, EmptyString => None
  end.

(** [any(f(x) for x in l)]. *)
Definition any {A} (f : A -> bool) (l : list A) : bool := existsb f l.

(** Two strings that differ at most in the case of their characters. *)
Fixpoint same_modulo_case (s t : string) : Prop :=
  match s, t with
  | EmptyString, EmptyString => True
  | String a s', String b t' =>
      lower_char a = lower_char b /\ same_modulo_case s' t'
  | _, _ => False
  end.

End Str.

(** ** [config.py]: the file filtering predicates *)

Definition markdown_extensions : list string := [".md"; ".mdx"].

Definition is_markdown_file (filename : string) : bool :=
  Str.any (fun ext => Str.endswith (Str.lower filename) ext) markdown_extensions.

Definition code_extensions : list string :=
  [ ".py"; ".js"; ".jsx"; ".ts"; ".tsx"; ".java"; ".c"; ".cpp"; ".cs"; ".go";
    ".rb"; ".php"; ".swift"; ".kt"; ".rs"; ".scala"; ".sh"; ".bash"; ".ps1";
    ".pl"; ".lua"; ".r";
    ".html"; ".htm"; ".css"; ".scss"; ".sass"; ".less";
    ".json"; ".xml"; ".yaml"; ".yml";
    ".gradle"; ".sbt"; ".make"; ".cmake"; ".toml"; ".ini"; ".conf";
    ".class"; ".jar"; ".war"; ".dll"; ".exe"; ".so"; ".o"; ".obj"; ".pyc";
    ".dockerfile"; ".containerfile";
    ".sql"; ".db"; ".sqlite" ].

Definition is_code_file (filename : string) : bool :=
  Str.any (fun ext => Str.endswith (Str.lower filename) ext) code_extensions.

Definition binary_extensions : list string :=
  [ ".bin"; ".dat"; ".exe"; ".dll"; ".so"; ".dylib"; ".class"; ".jar"; ".war";
    ".ear"; ".zip"; ".tar"; ".gz"; ".bz2"; ".xz"; ".7z"; ".rar";
    ".jpg"; ".jpeg"; ".png"; ".gif"; ".bmp"; ".tiff"; ".webp"; ".ico"; ".svg";
    ".mp3"; ".mp4"; ".wav"; ".flac"; ".ogg"; ".avi"; ".mov"; ".mkv"; ".webm";
    ".pdf"; ".doc"; ".docx"; ".xls"; ".xlsx"; ".ppt"; ".pptx";
    ".db"; ".sqlite"; ".mdb";
    ".pyc"; ".pyo"; ".o"; ".obj"; ".a"; ".lib";
    ".lock"; ".yarn-integrity"; "package-lock.json"; "yarn.lock";
    ".cache"; ".DS_Store"; "Thumbs.db" ].

Definition generated_patterns : list string :=
  [ "node_modules"; "__pycache__"; ".git"; ".svn"; ".hg"; ".idea"; ".vscode";
    "build"; "dist"; "target"; "out"; "bin"; "obj" ].

(** The local [is_binary] of [is_binary_or_generated_file]. *)
Definition is_binary (filename : string) : bool :=
  Str.any (fun ext => Str.endswith (Str.lower filename) ext) binary_extensions.

(** The local [is_generated] of [is_binary_or_generated_file]: the patterns
    are looked for in [filename] itself, not in [filename.lower()]. *)
Definition is_generated (filename : string) : bool :=
  Str.any (fun pattern => Str.contains pattern filename) generated_patterns.

Definition is_binary_or_generated_file (filename : string) : bool :=
  is_binary filename || is_generated filename.


(** ** [re.search]: a backtracking matcher for the constructs of the pattern

    The pattern of [DocsGrabberThread.run] uses literals, the greedy [c+] on
    the classes [[^/]] and [.], capturing groups and one greedy optional
    non-capturing group.  The matcher is written in continuation-passing
    style, so the order in which alternatives are tried is Python's: longest
    repetition first, the optional group before its absence, the leftmost
    start position first. *)

Module Re.

Inductive cls := NotSlash | Dot.

(** [[^/]] matches every character but the slash; [.] every character but
    the line feed. *)
Definition cls_ok (c : cls) (a : ascii) : bool :=
  match c with
  | NotSlash => negb (Ascii.eqb a "/")
  | Dot => negb (Ascii.eqb a "010")
  end.

Inductive regex :=
| Lit (l : string)
| Plus (c : cls)
| Seq (r1 r2 : regex)
| Group (i : nat) (r : regex)
| Opt (r : regex).

(** Length of the longest prefix of [s] made of characters of class [c]. *)
Fixpoint span (c : cls) (s : string) : nat :=
  match s with
  | String a s' => if cls_ok c a then S (span c s') else O
  | EmptyString => O
  end.

(** Greedy repetition: give the continuation the rest after [i] characters,
    [i] going down from the longest run to one. *)
Fixpoint try_down {R} (i : nat) (s : string) (k : string -> option R) : option R :=
  match i with
  | O => None
  | S j =>
      match k (Str.drop (S j) s) with
      | Some x => Some x
      | None => try_down j s k
      end
  end.

Fixpoint exec {R} (r : regex) (s : string) (caps : gmap nat string)
    (k : string -> gmap nat string -> option R) : option R :=
  match r with
  | Lit l =>
      match Str.strip_prefix l s with
      | Some s' => k s' caps
      | None => None
      end
  | Plus c => try_down (span c s) s (fun s' => k s' caps)
  | Seq r1 r2 => exec r1 s caps (fun s' caps' => exec r2 s' caps' k)
  | Group i r1 =>
      exec r1 s caps
        (fun s' caps' =>
           k s' (<[i := Str.take (String.length s - String.length s') s]> caps'))
  | Opt r1 =>
      match exec r1 s caps k with
      | Some x => Some x
      | None => k s caps
      end
  end.

(** A match anchored at the start of [s]: the groups it captured. *)
Definition match_here (r : regex) (s : string) : option (gmap nat string) :=
  exec r s ∅ (fun _ caps => Some caps).

(** [re.search(r, s)]: the first start position with a match. *)
Fixpoint search (r : regex) (s : string) : option (gmap nat string) :=
  match match_here r s with
  | Some caps => Some caps
  | None =>
      match s with
      | EmptyString => None
      | String _ s' => search r s'
      end
  end.

End Re.

(** ** [DocsGrabberThread.run]: the parse step *)

(** [r'github\.com/([^/]+)/([^/]+)(?:/tree/([^/]+)/(.+))?'] *)
Definition repo_path_re : Re.regex :=
  Re.Seq (Re.Lit "github.com/")
    (Re.Seq (Re.Group 1 (Re.Plus Re.NotSlash))
       (Re.Seq (Re.Lit "/")
          (Re.Seq (Re.Group 2 (Re.Plus Re.NotSlash))
             (Re.Opt
                (Re.Seq (Re.Lit "/tree/")
                   (Re.Seq (Re.Group 3 (Re.Plus Re.NotSlash))
                      (Re.Seq (Re.Lit "/") (Re.Group 4 (Re.Plus Re.Dot))))))))).

Record repo_ref := {
  owner : string;
  repo_name : string;
  branch : string;
  subdir_path : string
}.

(** [m.group(i) if m.group(i) else d]: a group that did not take part in the
    match, or matched the empty string, gives [d]. *)
Definition group_or (m : gmap nat string) (i : nat) (d : string) : string :=
  match m !! i with
  | Some g => if String.eqb g "" then d else g
  | None => d
  end.

(** [m.group(i)] for a group that takes part in every match. *)
Definition group (m : gmap nat string) (i : nat) : string :=
  default "" (m !! i).

(** Lines 42-51 of [run]: [None] is the "Invalid GitHub URL format" exit. *)
Definition parse_repo_url (repo_url : string) : option repo_ref :=
  match Re.search repo_path_re repo_url with
  | None => None
  | Some m =>
      Some {| owner := group m 1;
              repo_name := group m 2;
              branch := group_or m 3 "main";
              subdir_path := group_or m 4 "" |}
  end.

(** The URL check of [DocsGrabberApp.start_grabbing], made before the thread
    is created. *)
Definition start_grabbing_url_ok (repo_url : string) : bool :=
  Str.startswith "https://github.com/" repo_url
  || Str.startswith "http://github.com/" repo_url.


(** ** The file system

    The fetched tree is a tree of directory entries in listing order
    ([os.scandir]).  An entry is a regular file (with its bytes and whether it
    can be opened for reading), a directory, or something [os.path.isfile]
    and [os.path.isdir] both reject (a dangling link, a socket).  The
    destination is a finite map from paths, as lists of segments below the
    destination root, to what is there.  Directories that cannot be listed
    and links to directories are not part of the model. *)

Abbreviation path := (list string).

#[local] Unset Elimination Schemes.
Inductive node :=
| File (data : list Byte.byte) (readable : bool)
| Other
| Dir (entries : list (string * node)).
#[local] Set Elimination Schemes.

Inductive dentry :=
| DFile (data : list Byte.byte)
| DDir.

Inductive exn :=
| FileExistsError (p : path)
| NotADirectoryError (p : path)
| CopyError (failed : list path)
| ManifestError.

(** How a block that can raise ends: normally, or by an exception, in both
    cases with the state it left behind. *)
Inductive outcome (S : Type) :=
| Done (s : S)
| Raised (s : S) (e : exn).
Arguments Done {S} s.
Arguments Raised {S} s e.

Definition is_dir (n : node) : bool :=
  match n with Dir _ => true | _ => false end.

(** [os.path.join(a, b)] (posixpath). *)
Definition path_join (a b : string) : string :=
  if Str.startswith "/" b then b
  else if String.eqb a "" || Str.endswith a "/" then a +:+ b
  else a +:+ "/" +:+ b.

(** [[], [x1], [x1; x2], ..., p]. *)
Fixpoint prefixes (p : path) : list path :=
  [] :: match p with
        | [] => []
        | x :: p' => map (cons x) (prefixes p')
        end.

Definition is_dfile (o : option dentry) : bool :=
  match o with Some (DFile _) => true | _ => false end.

(** [os.makedirs(p, exist_ok=exist_ok)]: fails when a file sits at [p] or
    above it, or when [p] exists and [exist_ok] is false; otherwise creates
    [p] and the directories missing above it. *)
Definition makedirs (exist_ok : bool) (p : path) (d : gmap path dentry)
  : option (gmap path dentry) :=
  if existsb (fun q => is_dfile (d !! q)) (prefixes p) then None
  else if negb exist_ok && bool_decide (is_Some (d !! p)) then None
  else Some (foldr (fun q acc => <[q := DDir]> acc) d (prefixes p)).

(** [open(dir/name, 'wb')] followed by a write of [data]: fails when [dir] is
    not a directory or [dir/name] is one. *)
Definition write_file (dir : path) (name : string) (data : list Byte.byte)
    (d : gmap path dentry) : option (gmap path dentry) :=
  match d !! dir, d !! (dir ++ [name]) with
  | Some DDir, Some DDir => None
  | Some DDir, _ => Some (<[dir ++ [name] := DFile data]> d)
  | _, _ => None
  end.

(** ** [os.walk] *)

Record walk_item := {
  w_root : string;                  (* [root], as the string os.walk yields *)
  w_rel : path;                     (* the segments of [root] below the top *)
  w_files : list (string * node)    (* [files]: the entries that are not directories *)
}.

Definition non_dirs (es : list (string * node)) : list (string * node) :=
  List.filter (fun e => negb (is_dir e.2)) es.

(** [os.walk(top)], top-down, links not followed; a [top] that is not a
    directory yields nothing. *)
Fixpoint walk (root : string) (rel : path) (n : node) : list walk_item :=
  match n with
  | Dir es =>
      {| w_root := root; w_rel := rel; w_files := non_dirs es |} ::
      (fix sub (l : list (string * node)) : list walk_item :=
         match l with
         | [] => []
         | (name, c) :: l' =>
             walk (path_join root name) (rel ++ [name]) c ++ sub l'
         end) es
  | _ => []
  end.

(** [os.path.relpath(root, source_dir)] for a [root] that os.walk reached
    from [source_dir] through the segments [rel]. *)
Definition relpath (rel : path) : string :=
  match rel with
  | [] => "."
  | x :: rel' => foldl (fun acc y => acc +:+ "/" +:+ y) x rel'
  end.

(** ** [config.py]: [filter_files] *)

Record copy_state := {
  dest : gmap path dentry;        (* the tree under [target_dir] *)
  copied_files : list string;
  printed : list string           (* the source files of the "Error copying" lines *)
}.

(** The local [should_copy] after the mode test. *)
Definition should_copy (filter_mode file source_file : string) : bool :=
  if String.eqb filter_mode "markdown_only" then is_markdown_file file
  else if String.eqb filter_mode "exclude_code" then negb (is_code_file file)
  else if String.eqb filter_mode "light_filter"
       then negb (is_binary_or_generated_file source_file)
  else true.

(** The [try] block of the inner loop, for a file that passed the filter. *)
Definition copy_file (source_file target_file : string) (rel : path)
    (file : string) (n : node) (st : copy_state) : copy_state :=
  let failed d :=
    {| dest := d; copied_files := copied_files st;
       printed := printed st ++ [source_file] |} in
  match makedirs true rel (dest st) with
  | None => failed (dest st)
  | Some d1 =>
      match n with
      | File data readable =>
          if readable then
            match write_file rel file data d1 with
            | Some d2 =>
                {| dest := d2; copied_files := copied_files st ++ [target_file];
                   printed := printed st |}
            | None => failed d1
            end
          else failed d1
      | _ => {| dest := d1; copied_files := copied_files st; printed := printed st |}
      end
  end.

(** The body of [for file in files]. *)
Definition filter_file (filter_mode : string) (w : walk_item) (target_path : string)
    (st : copy_state) (f : string * node) : copy_state :=
  let source_file := path_join (w_root w) f.1 in
  let target_file := path_join target_path f.1 in
  if should_copy filter_mode f.1 source_file
  then copy_file source_file target_file (w_rel w) f.1 f.2 st
  else st.

(** The body of [for root, dirs, files in os.walk(source_dir)]. *)
Definition filter_dir (target_dir filter_mode : string) (st : copy_state)
    (w : walk_item) : outcome copy_state :=
  let target_path := path_join target_dir (relpath (w_rel w)) in
  match makedirs true (w_rel w) (dest st) with
  | None => Raised st (FileExistsError (w_rel w))
  | Some d =>
      Done (foldl (filter_file filter_mode w target_path)
              {| dest := d; copied_files := copied_files st; printed := printed st |}
              (w_files w))
  end.

Fixpoint filter_loop (target_dir filter_mode : string) (ws : list walk_item)
    (st : copy_state) : outcome copy_state :=
  match ws with
  | [] => Done st
  | w :: ws' =>
      match filter_dir target_dir filter_mode st w with
      | Done st' => filter_loop target_dir filter_mode ws' st'
      | Raised st' e => Raised st' e
      end
  end.

(** [filter_files(source_dir, target_dir, filter_mode)], [source] being what
    is at [source_dir] and [d] what is under [target_dir] at the call. *)
Definition filter_files (source_dir : string) (source : node) (target_dir : string)
    (filter_mode : string) (d : gmap path dentry) : outcome copy_state :=
  filter_loop target_dir filter_mode (walk source_dir [] source)
    {| dest := d; copied_files := []; printed := [] |}.


(** ** [shutil.copy2] and [shutil.copytree] *)

(** [shutil.copy2(src, dst)], [dst] being [dir/name]: when [dst] is a
    directory the copy goes into it under the source's base name.  A source
    that cannot be read, or is not a regular file, raises. *)
Definition copy2 (n : node) (dir : path) (name : string)
    (d : gmap path dentry) : option (gmap path dentry) :=
  match n with
  | File data true =>
      match d !! (dir ++ [name]) with
      | Some DDir => write_file (dir ++ [name]) name data d
      | _ => write_file dir name data d
      end
  | _ => None
  end.

(** [shutil.copytree(src, dst, ignore=shutil.ignore_patterns('.git'))], [dst]
    being the path [p]: the names equal to [.git] are left out in every
    directory of the copy; an entry that fails is recorded and the copy goes
    on; the call raises at the end when the record is not empty, which is the
    second component here. *)
Fixpoint copytree (n : node) (p : path) (d : gmap path dentry)
  : gmap path dentry * list path :=
  match n with
  | Dir es =>
      match makedirs false p d with
      | None => (d, [p])
      | Some d1 =>
          (fix entries (l : list (string * node)) (d : gmap path dentry)
               (errors : list path) : gmap path dentry * list path :=
             match l with
             | [] => (d, errors)
             | (name, c) :: l' =>
                 if String.eqb name ".git" then entries l' d errors
                 else
                   match c with
                   | Dir _ =>
                       let r := copytree c (p ++ [name]) d in
                       entries l' r.1 (errors ++ r.2)
                   | _ =>
                       match copy2 c p name d with
                       | Some d' => entries l' d' errors
                       | None => entries l' d (errors ++ [p ++ [name]])
                       end
                   end
             end) es d1 []
      end
  | _ => (d, [p])
  end.

(** The loop of [copytree] over the entries of one directory, as a function
    of its own: [copytree (Dir es) p d] runs it on [es] once [p] is made. *)
Definition copytree_entries (p : path)
  : list (string * node) -> gmap path dentry -> list path
    -> gmap path dentry * list path :=
  fix entries (l : list (string * node)) (d : gmap path dentry)
      (errors : list path) : gmap path dentry * list path :=
    match l with
    | [] => (d, errors)
    | (name, c) :: l' =>
        if String.eqb name ".git" then entries l' d errors
        else
          match c with
          | Dir _ =>
              let r := copytree c (p ++ [name]) d in
              entries l' r.1 (errors ++ r.2)
          | _ =>
              match copy2 c p name d with
              | Some d' => entries l' d' errors
              | None => entries l' d (errors ++ [p ++ [name]])
              end
          end
    end.

(** ** [DocsGrabberThread.run] *)

(** The loop of the ["none"] branch over [os.listdir(source_dir)]. *)
Fixpoint copy_items (l : list (string * node)) (d : gmap path dentry)
  : outcome (gmap path dentry) :=
  match l with
  | [] => Done d
  | (item, c) :: l' =>
      if String.eqb item ".git" then copy_items l' d
      else if is_dir c then
        match copytree c [item] d with
        | (d', []) => copy_items l' d'
        | (d', errors) => Raised d' (CopyError errors)
        end
      else
        match copy2 c [] item d with
        | Some d' => copy_items l' d'
        | None => Raised d (CopyError [[item]])
        end
  end.

Definition copy_all (source : node) (d : gmap path dentry)
  : outcome (gmap path dentry) :=
  match source with
  | Dir es => copy_items es d
  | _ => Raised d (NotADirectoryError [])
  end.

(** [s.split(sep)]. *)
Fixpoint split_on (sep : ascii) (s : string) : list string :=
  match s with
  | EmptyString => [EmptyString]
  | String a s' =>
      if Ascii.eqb a sep then EmptyString :: split_on sep s'
      else match split_on sep s' with
           | [] => [String a EmptyString]
           | x :: l => String a x :: l
           end
  end.

Fixpoint find_entry (name : string) (es : list (string * node)) : option node :=
  match es with
  | [] => None
  | (x, c) :: es' => if String.eqb x name then Some c else find_entry name es'
  end.

(** What the file system finds when it follows the segments [segs] from the
    directory [n]: an empty segment or [.] stays in a directory.  A [..]
    leaves the workspace, which is not part of this model, and is reported as
    not found. *)
Fixpoint resolve (n : node) (segs : list string) : option node :=
  match segs with
  | [] => Some n
  | x :: segs' =>
      match n with
      | Dir es =>
          if String.eqb x "" || String.eqb x "." then resolve n segs'
          else if String.eqb x ".." then None
          else match find_entry x es with
               | Some c => resolve c segs'
               | None => None
               end
      | _ => None
      end
  end.

(** What is at [source_dir] (lines 78-83): the checkout itself, or what
    [specific_path] leads to in it; [None] when nothing is there.  An absolute
    [specific_path] makes [os.path.join] drop the workspace and a [..] can
    leave it; what is outside the workspace is not part of this model, so
    both are reported here as not found, and the statements below that
    depend on where a run leaves are made on the message it sends. *)
Definition find_source (specific_path : string) (tree : node) : option node :=
  if String.eqb specific_path "" then Some tree
  else if Str.startswith "/" specific_path then None
  else resolve tree (split_on "/" specific_path).

Inductive message :=
| Text (s : string)
| ErrorOf (e : exn).     (* f"Error: {str(e)}" *)

Inductive signal :=
| Progress (n : nat)
| Status (s : string)
| Finished (success : bool) (msg : message) (docs_path : string).

(** The part of the machine one run can touch. *)
Record world := {
  workspaces : gmap string node;     (* the directories made by tempfile.mkdtemp *)
  reference : gmap path dentry;      (* what is at {target_path}/reference; empty: nothing *)
  ai_instructions : option string    (* {target_path}/ai-instructions.md *)
}.

(** What the surroundings answer during one run. *)
Record env := {
  temp_dir : string;                 (* tempfile.mkdtemp() *)
  git_clone : string + node;         (* stderr of a failed clone, or the checkout *)
  current_time : string;             (* the formatted datetime.now() *)
  manifest_writable : bool           (* whether ai-instructions.md can be opened for writing *)
}.

Definition ai_instructions_text (display_repo_name current_time repo_url : string)
  : string :=
  "# AI Instructions: Documentation Context Folder" +:+ "
" +:+ "
" +:+ "This folder contains documentation for the following Github repository: "
  +:+ display_repo_name +:+ "." +:+ "
" +:+ "
" +:+ "It is intended to provide you with context on how this SDK or utility operates. Do not edit the documentation in this folder or its recursive paths."
  +:+ "
" +:+ "
" +:+ "It was imported from the internet on: " +:+ current_time +:+ "." +:+ "
" +:+ "
" +:+ "The original URL was " +:+ repo_url +:+ "
".

Definition filter_description (filter_mode : string) : string :=
  if String.eqb filter_mode "markdown_only" then "markdown files only"
  else if String.eqb filter_mode "exclude_code" then "non-code files"
  else if String.eqb filter_mode "light_filter"
       then "documentation files (excluding binaries)"
  else "files".

(** Lines 86-89: the reference directory is removed when something is there
    and made again. *)
Definition prepare_reference (ref : gmap path dentry)
  : outcome (gmap path dentry) :=
  match ref !! [] with
  | Some (DFile _) => Raised ref (NotADirectoryError [])
  | _ =>
      match makedirs true [] ∅ with
      | Some d => Done d
      | None => Raised ∅ (FileExistsError [])
      end
  end.

(** Lines 94-113: the copy phase, with the status line it emits. *)
Definition copy_phase (filter_mode source_dir : string) (source : node)
    (reference_dir : string) (ref : gmap path dentry)
  : signal * outcome (gmap path dentry) :=
  if String.eqb filter_mode "none" then
    (Status "Copying all documentation files...", copy_all source ref)
  else
    (Status ("Filtering and copying " +:+ filter_description filter_mode +:+ "..."),
     match filter_files source_dir source reference_dir filter_mode ref with
     | Done st => Done (dest st)
     | Raised st e => Raised (dest st) e
     end).

(** [run]: the world it leaves and the signals it emits, in order.  The
    manifest is either refused at [open], before the file is touched, or
    written whole; a write that fails after the file is opened, and a failure
    of [shutil.rmtree(temp_dir)], are not part of this model. *)
Definition run (repo_url target_path filter_mode : string) (e : env) (w : world)
  : world * list signal :=
  let with_ws ws ref ai :=
    {| workspaces := ws; reference := ref; ai_instructions := ai |} in
  let ws1 := <[temp_dir e := Dir []]> (workspaces w) in
  let w1 := with_ws ws1 (reference w) (ai_instructions w) in
  let s1 := [Status "Cloning repository..."; Progress 10] in
  match parse_repo_url repo_url with
  | None => (w1, s1 ++ [Finished false (Text "Invalid GitHub URL format") ""])
  | Some r =>
      let specific_path := subdir_path r in
      match git_clone e with
      | inl stderr =>
          (w1, s1 ++ [Finished false (Text ("Git clone failed: " +:+ stderr)) ""])
      | inr tree =>
          let ws2 := <[temp_dir e := tree]> (workspaces w) in
          let w2 := with_ws ws2 (reference w) (ai_instructions w) in
          let s2 := s1 ++ [Progress 40; Status "Processing files..."] in
          let source_dir :=
            if String.eqb specific_path "" then temp_dir e
            else path_join (temp_dir e) specific_path in
          match find_source specific_path tree with
          | None =>
              (w2, s2 ++ [Finished false
                            (Text ("Specified path '" +:+ specific_path
                                   +:+ "' not found in repository")) ""])
          | Some source =>
              let reference_dir := path_join target_path "reference" in
              match prepare_reference (reference w) with
              | Raised ref x =>
                  (with_ws ws2 ref (ai_instructions w),
                   s2 ++ [Finished false (ErrorOf x) ""])
              | Done ref0 =>
                  let s3 := s2 ++ [Progress 60] in
                  let cp := copy_phase filter_mode source_dir source reference_dir ref0 in
                  match cp.2 with
                  | Raised ref x =>
                      (with_ws ws2 ref (ai_instructions w),
                       s3 ++ [cp.1; Finished false (ErrorOf x) ""])
                  | Done ref =>
                      let s4 := s3 ++ [cp.1; Progress 80;
                                       Status "Creating AI instructions file..."] in
                      let display_repo_name :=
                        if String.eqb specific_path ""
                        then owner r +:+ "/" +:+ repo_name r
                        else owner r +:+ "/" +:+ repo_name r
                             +:+ " (path: " +:+ specific_path +:+ ")" in
                      if manifest_writable e then
                        (with_ws (delete (temp_dir e) ws2) ref
                           (Some (ai_instructions_text display_repo_name
                                    (current_time e) repo_url)),
                         s4 ++ [Progress 100;
                                Status "Documentation successfully grabbed!";
                                Finished true
                                  (Text "Documentation successfully grabbed!")
                                  reference_dir])
                      else
                        (with_ws ws2 ref (ai_instructions w),
                         s4 ++ [Finished false (ErrorOf ManifestError) ""])
                  end
              end
          end
      end
  end.


(** ** [config.py]: the class [Config]

    The settings are a dictionary from keys to JSON values; the values the
    program stores are strings, and the other scalar values are kept for what
    a settings file written by hand can hold.  The settings file is absent,
    holds a JSON object, or holds something that leaves the settings
    untouched and has the error printed: a text [json.load] rejects, or a
    JSON number, boolean, [null] or non-empty string, at which [dict.update]
    raises before it stores anything.  A file that holds a JSON array, which
    [dict.update] reads as a sequence of pairs, is not part of this model.
    Whether the file can be opened for writing is part of the disk.  The
    creation of the directory of the file ([_ensure_config_dir]) is taken to
    succeed. *)

Inductive jvalue :=
| JStr (s : string)
| JNum (z : Z)
| JBool (b : bool)
| JNull.

Inductive file_content :=
| Object (m : gmap string jvalue)
| Invalid.     (* not JSON, or a JSON number, boolean, null or non-empty string *)

Record disk := {
  config_file : option file_content;
  writable : bool
}.

Module Config.

(** The attribute [settings]; [default_settings] is the same for every
    instance and is never changed ([copy()] is taken of it). *)
Record t := { settings : gmap string jvalue }.

Definition default_settings : gmap string jvalue :=
  <["base_repo_path" := JStr ""]> (<["filter_mode" := JStr "none"]> ∅).

(** [load_settings]: the second component is what is printed. *)
Definition load_settings (c : t) (d : disk) : t * list string :=
  match config_file d with
  | None => (c, [])
  | Some (Object loaded_settings) =>
      ({| settings := loaded_settings ∪ settings c |}, [])
  | Some Invalid => (c, ["Error loading settings"])
  end.

(** [Config()]. *)
Definition init (d : disk) : t * list string :=
  load_settings {| settings := default_settings |} d.

(** [save_settings]: the returned flag, the disk afterwards, what is
    printed. *)
Definition save_settings (c : t) (d : disk) : bool * disk * list string :=
  if writable d
  then (true, {| config_file := Some (Object (settings c)); writable := writable d |}, [])
  else (false, d, ["Error saving settings"]).

(** [get(key, default)]. *)
Definition get (c : t) (key : string) (default : jvalue) : jvalue :=
  match settings c !! key with
  | Some v => v
  | None => default
  end.

(** [set(key, value)]. *)
Definition set (c : t) (key : string) (value : jvalue) : t :=
  {| settings := <[key := value]> (settings c) |}.

(** [reset()]: the flag of [save_settings] is dropped. *)
Definition reset (c : t) (d : disk) : t * disk * list string :=
  let c' := {| settings := default_settings |} in
  let r := save_settings c' d in
  (c', r.1.2, r.2).

(** Both keys of [default_settings] are set. *)
Definition has_defaults (c : t) : Prop :=
  is_Some (settings c !! "base_repo_path") /\ is_Some (settings c !! "filter_mode").

End Config.

(** ** [docs_grabber.py]: [SettingsDialog] *)

Inductive radio := FilterNone | FilterMarkdown | FilterExcludeCode | FilterLight.

Record settings_dialog := {
  path_input : string;      (* the text of the line edit *)
  checked : radio           (* the radio button that is checked *)
}.

(** The radio button [init_ui] checks for the stored mode. *)
Definition radio_of (current_filter : jvalue) : radio :=
  match current_filter with
  | JStr m =>
      if String.eqb m "none" then FilterNone
      else if String.eqb m "markdown_only" then FilterMarkdown
      else if String.eqb m "exclude_code" then FilterExcludeCode
      else if String.eqb m "light_filter" then FilterLight
      else FilterNone
  | _ => FilterNone
  end.

(** The mode [save_settings] stores for the checked button. *)
Definition mode_of (r : radio) : string :=
  match r with
  | FilterNone => "none"
  | FilterMarkdown => "markdown_only"
  | FilterExcludeCode => "exclude_code"
  | FilterLight => "light_filter"
  end.

(** [SettingsDialog.init_ui], as far as the settings go; [setText] needs a
    string, so a stored path of another type raises ([None]). *)
Definition dialog_init (c : Config.t) : option settings_dialog :=
  match Config.get c "base_repo_path" (JStr "") with
  | JStr s =>
      Some {| path_input := s;
              checked := radio_of (Config.get c "filter_mode" (JStr "none")) |}
  | _ => None
  end.

(** [SettingsDialog.save_settings]: the configuration and the disk
    afterwards, and whether the dialog was accepted. *)
Definition dialog_save (dlg : settings_dialog) (c : Config.t) (d : disk)
  : Config.t * disk * bool :=
  let c1 := Config.set c "base_repo_path" (JStr (path_input dlg)) in
  let c2 := Config.set c1 "filter_mode" (JStr (mode_of (checked dlg))) in
  let r := Config.save_settings c2 d in
  (c2, r.1.2, r.1.1).

(** ** [docs_grabber.py]: [DocsGrabberApp] *)

(** The data of the combo box item that is current after [init_ui]:
    [findData] of the stored mode, the first item when it finds none. *)
Definition combo_default (c : Config.t) : string :=
  mode_of (radio_of (Config.get c "filter_mode" (JStr "none"))).

(** The white space [str.strip] removes, among the ASCII characters. *)
Definition is_space (a : ascii) : bool :=
  let n := nat_of_ascii a in
  ((9 <=? n)%nat && (n <=? 13)%nat) || ((28 <=? n)%nat && (n <=? 32)%nat).

Fixpoint lstrip (s : string) : string :=
  match s with
  | String a s' => if is_space a then lstrip s' else s
  | EmptyString => EmptyString
  end.

Fixpoint rstrip (s : string) : string :=
  match s with
  | String a s' =>
      match rstrip s' with
      | EmptyString => if is_space a then EmptyString else String a EmptyString
      | t => String a t
      end
  | EmptyString => EmptyString
  end.

(** [s.strip()]. *)
Definition strip (s : string) : string := rstrip (lstrip s).

Inductive started :=
| Warning (title text : string)
| Thread (repo_url target_path filter_mode : string).

(** [start_grabbing]: the warning shown, or the arguments the thread is
    created with; [isdir] is [os.path.isdir]. *)
Definition start_grabbing (repo_input path_text filter_mode : string)
    (isdir : string -> bool) : started :=
  let repo_url := strip repo_input in
  let target_path := strip path_text in
  if String.eqb repo_url "" then
    Warning "Input Error" "Please enter a GitHub repository URL."
  else if String.eqb target_path "" then
    Warning "Input Error" "Please select a target repository path."
  else if negb (isdir target_path) then
    Warning "Path Error" "The selected path is not a valid directory."
  else if negb (start_grabbing_url_ok repo_url) then
    Warning "URL Error" "Please enter a valid GitHub URL."
  else Thread repo_url target_path filter_mode.

(** ** Notions used to state the properties *)

(** The run ended with [finished_signal.emit(True, ...)]. *)
Definition succeeded (r : world * list signal) : bool :=
  match last r.2 with
  | Some (Finished true _ _) => true
  | _ => false
  end.

(** The characters of [x] are all of class [c]. *)
Definition all_cls (c : Re.cls) (x : string) : Prop :=
  Re.span c x = String.length x.

Definition line_feed : string := String "010" EmptyString.

(** The characters of [s] are ASCII characters.  On such a string
    [Str.lower] is Python's [str.lower], which maps characters beyond ASCII
    by the Unicode tables. *)
Fixpoint is_ascii (s : string) : bool :=
  match s with
  | EmptyString => true
  | String a s' => (nat_of_ascii a <? 128)%nat && is_ascii s'
  end.

(** The destination right after [prepare_reference]: an empty directory. *)
Definition fresh_reference : gmap path dentry := {[ [] := DDir ]}.

Fixpoint distinct (l : list string) : bool :=
  match l with
  | [] => true
  | x :: l' => negb (existsb (String.eqb x) l') && distinct l'
  end.

(** A directory listing never repeats a name. *)
Fixpoint well_formed (n : node) : bool :=
  match n with
  | Dir es =>
      distinct (map fst es)
      && (fix all (l : list (string * node)) : bool :=
            match l with
            | [] => true
            | e :: l' => well_formed e.2 && all l'
            end) es
  | _ => true
  end.

(** A regular file that can be read. *)
Definition copyable (n : node) : bool :=
  match n with
  | File _ true => true
  | _ => false
  end.

(** A regular file that cannot be read. *)
Definition unreadable (n : node) : bool :=
  match n with
  | File _ false => true
  | _ => false
  end.

(** The files of the walk that satisfy [keep], as [f] names them, in the
    order of the walk. *)
Definition walked_files {A} (keep : walk_item -> string * node -> bool)
    (f : walk_item -> string * node -> A) (ws : list walk_item) : list A :=
  flat_map (fun w => map (f w) (List.filter (keep w) (w_files w))) ws.

Definition passes (filter_mode : string) (w : walk_item) (f : string * node) : bool :=
  should_copy filter_mode f.1 (path_join (w_root w) f.1).

Definition target_file_of (target_dir : string) (w : walk_item)
    (f : string * node) : string :=
  path_join (path_join target_dir (relpath (w_rel w))) f.1.

Definition source_file_of (w : walk_item) (f : string * node) : string :=
  path_join (w_root w) f.1.

(** What the tree has at a path: first entry of that name, level by level. *)
Fixpoint lookup_node (n : node) (p : path) : option node :=
  match p with
  | [] => Some n
  | x :: p' =>
      match n with
      | Dir es =>
          match find_entry x es with
          | Some c => lookup_node c p'
          | None => None
          end
      | _ => None
      end
  end.

(** The tree without the entries named [.git], at every depth. *)
Fixpoint strip_git (n : node) : node :=
  match n with
  | Dir es =>
      Dir ((fix strip (l : list (string * node)) : list (string * node) :=
              match l with
              | [] => []
              | (name, c) :: l' =>
                  if String.eqb name ".git" then strip l'
                  else (name, strip_git c) :: strip l'
              end) es)
  | _ => n
  end.

(** The destination entry that is a copy of a node. *)
Definition entry_of (n : node) : option dentry :=
  match n with
  | File data _ => Some (DFile data)
  | Dir _ => Some DDir
  | Other => None
  end.

(** What a faithful copy of the tree [t] has at the path [q]. *)
Definition copy_of (t : node) (q : path) : option dentry :=
  match lookup_node t q with
  | Some n => entry_of n
  | None => None
  end.

(** Every entry not named [.git] is a directory or a readable regular file,
    at every depth. *)
Fixpoint all_readable (n : node) : bool :=
  match n with
  | Dir es =>
      (fix all (l : list (string * node)) : bool :=
         match l with
         | [] => true
         | (name, c) :: l' =>
             (String.eqb name ".git" || all_readable c) && all l'
         end) es
  | File _ readable => readable
  | Other => false
  end.

(** What [copytree] does with the directory [c] at a place [p] that is free
    and whose parents exist: it records no failure, leaves at [p] the copy of
    [c] without its [.git] entries, and touches nothing outside [p]. *)
Definition copytree_ok (c : node) : Prop :=
  forall (p : path) (d : gmap path dentry),
    is_dir c = true ->
    well_formed c = true ->
    all_readable c = true ->
    (forall q', d !! (p ++ q') = None) ->
    (forall q, q `prefix_of` p -> q <> p -> d !! q = Some DDir) ->
    exists d',
      copytree c p d = (d', [])
      /\ (forall q', d' !! (p ++ q') = copy_of (strip_git c) q')
      /\ (forall q, ¬ p `prefix_of` q -> d' !! q = d !! q).

(** No file of the walk lies at or above a directory of the walk. *)
Definition separated (W : list walk_item) : Prop :=
  forall w1 w2 f, w1 ∈ W -> w2 ∈ W -> f ∈ w_files w1 ->
                  ¬ (w_rel w1 ++ [f.1]) `prefix_of` (w_rel w2).

(** What the destination holds while [filter_files] works through the walk
    [W]: directories on the way to walked directories, files at walked
    files. *)
Definition dest_inv (W : list walk_item) (d : gmap path dentry) : Prop :=
  (forall q, d !! q = Some DDir ->
             q = [] \/ exists w, w ∈ W /\ q `prefix_of` w_rel w)
  /\ (forall q data, d !! q = Some (DFile data) ->
                     exists w f, w ∈ W /\ f ∈ w_files w /\ q = w_rel w ++ [f.1]).

(** The files [filter_files] copies and the ones it reports. *)
Definition copied_ok (filter_mode : string) (w : walk_item) (f : string * node) : bool :=
  passes filter_mode w f && copyable f.2.

Definition copy_fails (filter_mode : string) (w : walk_item) (f : string * node) : bool :=
  passes filter_mode w f && unreadable f.2.

(** The values [progress_signal] emitted, in order. *)
Definition progress_values (sigs : list signal) : list nat :=
  flat_map (fun x => match x with Progress n => [n] | _ => [] end) sigs.

Definition is_finished (x : signal) : bool :=
  match x with Finished _ _ _ => true | _ => false end.

(** What the optional group of the pattern finds in the text after the
    repository segment, read from left to right: [/tree/], a non-empty run of
    characters other than the slash, a slash, and a non-empty run of
    characters other than the line feed. *)
Definition tree_match (tail : string) : option (string * string) :=
  match Str.strip_prefix "/tree/" tail with
  | Some t =>
      let n := Re.span Re.NotSlash t in
      match Str.strip_prefix "/" (Str.drop n t) with
      | Some u =>
          let m := Re.span Re.Dot u in
          if (0 <? n)%nat && (0 <? m)%nat then Some (Str.take n t, Str.take m u)
          else None
      | None => None
      end
  | None => None
  end.

(** Branch and subpath as [run] takes them from the match. *)
Definition tree_suffix (tail : string) : string * string :=
  match tree_match tail with
  | Some (b, sp) => (b, sp)
  | None => ("main", "")
  end.

(** The four modes of the program. *)
Definition filter_modes : list string :=
  ["none"; "markdown_only"; "exclude_code"; "light_filter"].

(** A file of the walk that [filter_files] has to copy, with its bytes. *)
Definition good_file (filter_mode : string) (w : walk_item) (f : string * node)
    (data : list Byte.byte) : Prop :=
  f ∈ w_files w /\ f.2 = File data true /\ passes filter_mode w f = true.

(** Every file in the destination is a file to copy, with its bytes. *)
Definition files_sound (filter_mode : string) (W : list walk_item)
    (d : gmap path dentry) : Prop :=
  forall q data, d !! q = Some (DFile data) ->
                 exists w f, w ∈ W /\ good_file filter_mode w f data
                             /\ q = w_rel w ++ [f.1].

(** The files to copy among those gone through so far are in the
    destination. *)
Definition files_done (filter_mode : string) (W : list walk_item)
    (P : list (walk_item * (string * node))) (d : gmap path dentry) : Prop :=
  forall w f data, (w, f) ∈ P -> w ∈ W -> good_file filter_mode w f data ->
                   d !! (w_rel w ++ [f.1]) = Some (DFile data).

(** ** Sample inputs used by the closed statements below *)

Module Sample.

Definition empty_world : world :=
  {| workspaces := ∅; reference := ∅; ai_instructions := None |}.

Definition text : list Byte.byte := [Byte.x68; Byte.x69].

Definition one_doc : node := Dir [("a.md", File text true)].

Definition env_with (tmp : string) (clone : string + node) (writable : bool) : env :=
  {| temp_dir := tmp; git_clone := clone;
     current_time := "2025-01-01 00:00:00"; manifest_writable := writable |}.

Definition target : string := "/home/u/proj".

Definition file : node := File text true.

Definition four_files : node :=
  Dir [("a.md", file); ("b.py", file); ("c.mdx", file); ("d.txt", file)].

Definition three_files : node :=
  Dir [("a.py", file); ("b.md", file); ("c.exe", file)].

(** A checkout with its [.git], a directory without files and a directory
    with code only. *)
Definition checkout : node :=
  Dir [(".git", Dir [("HEAD", file); ("hook.py", file)]);
       ("empty", Dir []);
       ("src", Dir [("x.py", file)])].

(** [a.md] cannot be read. *)
Definition one_unreadable : node :=
  Dir [("a.md", File text false); ("b.md", file)].

(** A checkout in which [latest] is a symbolic link whose target is not
    there, listed before the files. *)
Definition dangling_link : node :=
  Dir [(".git", Dir [("HEAD", file)]);
       ("latest", Other);
       ("notes.md", file);
       ("docs", Dir [("guide.md", file)])].

(** A checkout with [a.md], [b.py], [node_modules/c.js] and [.git/HEAD]. *)
Definition light_example : node :=
  Dir [(".git", Dir [("HEAD", file)]);
       ("a.md", file);
       ("b.py", file);
       ("node_modules", Dir [("c.js", file)])].

End Sample.

(** * Properties *)

(** ** The classifiers and the case of the path *)

Lemma lower_same_modulo_case s t :
  Str.same_modulo_case s t -> Str.lower s = Str.lower t.
Proof.
  revert t. induction s as [|a s IH]; intros [|b t]; simpl; try tauto.
  intros [Hab Hst]. rewrite Hab. f_equal. auto.
Qed.

(** C4 (as stated, refuted): two paths of ASCII characters that differ only
    in the case of one letter, on which [is_binary_or_generated_file]
    disagrees. *)
Lemma generated_pattern_case_sensitive :
  is_ascii "node_modules/a.md" = true
  /\ is_ascii "Node_modules/a.md" = true
  /\ Str.same_modulo_case "node_modules/a.md" "Node_modules/a.md"
  /\ is_binary_or_generated_file "node_modules/a.md" = true
  /\ is_binary_or_generated_file "Node_modules/a.md" = false.
Proof. repeat split; vm_compute; reflexivity. Qed.

(** C4 (amended): on two paths of ASCII characters that differ only in the
    case of their letters, [is_markdown_file], [is_code_file] and the
    extension check of [is_binary_or_generated_file] give the same result;
    the generated-pattern check reads the path as given, and the whole
    predicate agrees on the two paths whenever that check does. *)
Theorem classifiers_modulo_case s t :
  is_ascii s = true -> is_ascii t = true ->
  Str.same_modulo_case s t ->
  is_markdown_file s = is_markdown_file t
  /\ is_code_file s = is_code_file t
  /\ is_binary s = is_binary t
  /\ (is_generated s = is_generated t ->
      is_binary_or_generated_file s = is_binary_or_generated_file t).
Proof.
  intros _ _ H. apply lower_same_modulo_case in H.
  unfold is_markdown_file, is_code_file, is_binary_or_generated_file, is_binary.
  rewrite H. repeat split. intros ->. reflexivity.
Qed.

Lemma classifiers_modulo_case_witness :
  is_ascii "README.MD" = true
  /\ is_ascii "readme.md" = true
  /\ Str.same_modulo_case "README.MD" "readme.md"
  /\ is_markdown_file "README.MD" = is_markdown_file "readme.md"
  /\ is_code_file "README.MD" = is_code_file "readme.md"
  /\ is_binary "README.MD" = is_binary "readme.md"
  /\ (is_generated "README.MD" = is_generated "readme.md" ->
      is_binary_or_generated_file "README.MD" = is_binary_or_generated_file "readme.md").
Proof.
  assert (H : Str.same_modulo_case "README.MD" "readme.md")
    by (vm_compute; tauto).
  split; [reflexivity|]. split; [reflexivity|].
  split; [exact H|].
  exact (classifiers_modulo_case "README.MD" "readme.md" eq_refl eq_refl H).
Defined.

(** ** The temporary workspace *)

Lemma workspace_deleted_iff_success repo_url target_path filter_mode e w :
  workspaces (run repo_url target_path filter_mode e w).1 !! temp_dir e = None
  <-> succeeded (run repo_url target_path filter_mode e w) = true.
Proof.
  unfold succeeded, run.
  repeat match goal with
         | |- context [match ?x with _ => _ end] =>
             lazymatch x with
             | context [last] => fail
             | _ => destruct x eqn:?
             end
         end;
    cbn [fst snd workspaces]; rewrite last_app; cbn [last];
    rewrite ?lookup_insert_eq, ?lookup_delete_eq; split; congruence.
Qed.

(** C1 (the code at the failing inputs): the workspace made by [mkdtemp] is
    deleted exactly when the run reports success; a run that leaves through
    the invalid-URL exit, the failed-clone exit, the missing-subpath exit or
    the manifest-write exception still has its workspace afterwards. *)
Theorem workspace_kept_on_failure :
  let tmp := "/tmp/tmpa1b2c3d4" in
  let after url clone writable :=
    workspaces (run url Sample.target "none"
                  (Sample.env_with tmp clone writable) Sample.empty_world).1 !! tmp in
  (forall repo_url target_path filter_mode e w,
      workspaces (run repo_url target_path filter_mode e w).1 !! temp_dir e = None
      <-> succeeded (run repo_url target_path filter_mode e w) = true)
  /\ after "https://example.com/acme/widgets" (inr Sample.one_doc) true = Some (Dir [])
  /\ after "https://github.com/acme/widgets" (inl "fatal: repository not found") true
     = Some (Dir [])
  /\ after "https://github.com/acme/widgets/tree/main/docs" (inr Sample.one_doc) true
     = Some Sample.one_doc
  /\ after "https://github.com/acme/widgets" (inr Sample.one_doc) false
     = Some Sample.one_doc
  /\ after "https://github.com/acme/widgets" (inr Sample.one_doc) true = None.
Proof.
  cbv zeta. split; [exact workspace_deleted_iff_success|].
  repeat split; vm_compute; reflexivity.
Qed.

(** ** Light filtering and the path it reads *)

(** C5 (the code at the failing input): under [light_filter] the predicate is
    given [os.path.join(root, file)], which starts with the workspace path.
    The same tree, with the same file at the same place, is copied from one
    workspace and left out from another whose name happens to contain [bin]. *)
Theorem light_filter_reads_workspace_name :
  let copied tmp :=
    match filter_files tmp Sample.one_doc "/home/u/proj/reference" "light_filter"
            fresh_reference with
    | Done st => Some (copied_files st)
    | Raised _ _ => None
    end in
  is_binary_or_generated_file "a.md" = false
  /\ should_copy "light_filter" "a.md" (path_join "/tmp/tmpa1b2c3d4" "a.md") = true
  /\ should_copy "light_filter" "a.md" (path_join "/tmp/tmpbin4x2k_" "a.md") = false
  /\ copied "/tmp/tmpa1b2c3d4" = Some ["/home/u/proj/reference/./a.md"]
  /\ copied "/tmp/tmpbin4x2k_" = Some [].
Proof. cbv zeta. repeat split; vm_compute; reflexivity. Qed.

(** ** Running twice *)

(** C9 (the code at the failing input): two runs with the same URL, target,
    mode and fetched tree, the second started on what the first left.  The
    workspaces differ in name only and both runs end in success; under
    [light_filter] the first run copies [a.md] and the second leaves the
    reference tree without it. *)
Theorem second_run_differs_under_light_filter :
  let url := "https://github.com/acme/widgets" in
  let go tmp w :=
    run url Sample.target "light_filter"
      (Sample.env_with tmp (inr Sample.one_doc) true) w in
  let r1 := go "/tmp/tmpa1b2c3d4" Sample.empty_world in
  let r2 := go "/tmp/tmpbin4x2k_" r1.1 in
  succeeded r1 = true
  /\ succeeded r2 = true
  /\ reference r1.1 !! ["a.md"] = Some (DFile Sample.text)
  /\ reference r2.1 !! ["a.md"] = None
  /\ reference r1.1 <> reference r2.1.
Proof.
  cbv zeta.
  split; [vm_compute; reflexivity|]. split; [vm_compute; reflexivity|].
  match goal with
  | |- ?a = Some ?x /\ ?b = None /\ _ =>
      assert (H1 : a = Some x) by (vm_compute; reflexivity);
      assert (H2 : b = None) by (vm_compute; reflexivity)
  end.
  split; [exact H1|]. split; [exact H2|].
  intros Heq. rewrite Heq in H1. rewrite H1 in H2. discriminate.
Qed.

(** ** The parse step *)

Section StringFacts.

Lemma app_nil_r_s s : s +:+ "" = s.
Proof. induction s; simpl; congruence. Qed.

Lemma app_assoc_s s t u : (s +:+ t) +:+ u = s +:+ t +:+ u.
Proof. induction s; simpl; congruence. Qed.

Lemma length_app_s s t :
  String.length (s +:+ t) = String.length s + String.length t.
Proof. induction s; simpl; auto. Qed.

Lemma strip_prefix_app p s : Str.strip_prefix p (p +:+ s) = Some s.
Proof.
  induction p as [|a p IH]; simpl; [reflexivity|].
  rewrite Ascii.eqb_refl. exact IH.
Qed.

Lemma strip_prefix_Some p s t : Str.strip_prefix p s = Some t -> s = p +:+ t.
Proof.
  revert s. induction p as [|a p IH]; intros [|b s]; simpl; try congruence.
  destruct (Ascii.eqb_spec a b); [|discriminate].
  intros H. subst b. f_equal. auto.
Qed.

Lemma take_drop_s n s : Str.take n s +:+ Str.drop n s = s.
Proof.
  revert s. induction n as [|n IH]; intros [|a s]; simpl; try reflexivity.
  f_equal. apply IH.
Qed.

Lemma drop_app_length x y : Str.drop (String.length x) (x +:+ y) = y.
Proof. induction x; simpl; auto. Qed.

Lemma take_app_length x y : Str.take (String.length x) (x +:+ y) = x.
Proof. induction x; simpl; congruence. Qed.

Lemma startswith_app p s : Str.startswith p (p +:+ s) = true.
Proof.
  induction p as [|a p IH]; simpl; [reflexivity|].
  rewrite Ascii.eqb_refl. exact IH.
Qed.

Lemma startswith_true p s : Str.startswith p s = true -> exists t, s = p +:+ t.
Proof.
  revert s. induction p as [|a p IH]; intros s; simpl; [eauto|].
  destruct s as [|b s]; [discriminate|].
  destruct (Ascii.eqb_spec a b); simpl; [|discriminate].
  intros H. destruct (IH _ H) as [t ->]. subst b. eauto.
Qed.

End StringFacts.

Section MatcherFacts.

Local Ltac unroll :=
  cbn [Str.contains Str.startswith Re.span Re.cls_ok String.length negb orb andb].

Lemma no_slash_all_cls x : Str.contains "/" x = false -> all_cls Re.NotSlash x.
Proof.
  unfold all_cls. induction x as [|a x IH]; unroll; [reflexivity|].
  rewrite (Ascii.eqb_sym "/" a).
  destruct (Ascii.eqb a "/"); unroll; [discriminate|].
  intros H. f_equal. auto.
Qed.

Lemma all_cls_no_slash x : all_cls Re.NotSlash x -> Str.contains "/" x = false.
Proof.
  unfold all_cls. induction x as [|a x IH]; unroll; [reflexivity|].
  rewrite (Ascii.eqb_sym "/" a).
  destruct (Ascii.eqb a "/"); unroll; [discriminate|].
  intros H. apply IH. lia.
Qed.

Lemma no_line_feed_all_cls x :
  Str.contains line_feed x = false -> all_cls Re.Dot x.
Proof.
  unfold all_cls, line_feed. induction x as [|a x IH]; unroll; [reflexivity|].
  rewrite (Ascii.eqb_sym "010" a).
  destruct (Ascii.eqb a "010"); unroll; [discriminate|].
  intros H. f_equal. auto.
Qed.

Lemma span_le c s : Re.span c s <= String.length s.
Proof. induction s as [|a s IH]; simpl; [lia|]. destruct (Re.cls_ok c a); simpl; lia. Qed.

Lemma span_app c x y :
  all_cls c x -> Re.span c (x +:+ y) = String.length x + Re.span c y.
Proof.
  unfold all_cls. induction x as [|a x IH]; simpl; [reflexivity|].
  destruct (Re.cls_ok c a); [|discriminate].
  intros H. f_equal. apply IH. lia.
Qed.

(** The prefix cut at a length within the run is of the class. *)
Lemma all_cls_take c n s : n <= Re.span c s -> all_cls c (Str.take n s).
Proof.
  unfold all_cls. revert s. induction n as [|n IH]; intros [|a s]; simpl;
    try reflexivity; try lia.
  destruct (Re.cls_ok c a); [|lia]. intros H. f_equal. apply IH. lia.
Qed.

Lemma length_take n s : n <= String.length s -> String.length (Str.take n s) = n.
Proof.
  revert s. induction n as [|n IH]; intros [|a s]; simpl; try lia.
  intros H. f_equal. apply IH. lia.
Qed.

Lemma length_drop n s : String.length (Str.drop n s) = String.length s - n.
Proof.
  revert s. induction n as [|n IH]; intros [|a s]; simpl; try lia. apply IH.
Qed.

Lemma try_down_Some {R} n s (k : string -> option R) v :
  Re.try_down n s k = Some v ->
  exists i, 1 <= i <= n /\ k (Str.drop i s) = Some v.
Proof.
  induction n as [|n IH]; cbn [Re.try_down]; [discriminate|].
  destruct (k (Str.drop (S n) s)) as [x|] eqn:Hk.
  - intros [= <-]. exists (S n). split; [lia|exact Hk].
  - intros H. destruct (IH H) as (i & Hi & Hki). exists i. split; [lia|exact Hki].
Qed.

Lemma try_down_first {R} n s (k : string -> option R) :
  1 <= n -> is_Some (k (Str.drop n s)) ->
  Re.try_down n s k = k (Str.drop n s).
Proof.
  destruct n as [|n]; [lia|]. intros _ [v Hv]. cbn [Re.try_down].
  rewrite Hv. reflexivity.
Qed.

(** A capturing [c+] in front of a text that starts with the run [x] and goes
    on with [y], which does not start with a character of the class: when
    the continuation accepts [y], the longest run is the one taken. *)
Lemma exec_group_plus {R} i c x y caps
    (k : string -> gmap nat string -> option R) :
  x <> "" -> all_cls c x -> Re.span c y = 0 ->
  is_Some (k y (<[i := x]> caps)) ->
  Re.exec (Re.Group i (Re.Plus c)) (x +:+ y) caps k = k y (<[i := x]> caps).
Proof.
  intros Hx Hall Hy Hk. cbn [Re.exec].
  rewrite (span_app _ _ _ Hall), Hy, Nat.add_0_r.
  assert (Hlen : 1 <= String.length x) by (destruct x; simpl; [congruence|lia]).
  assert (Heq : k (Str.drop (String.length x) (x +:+ y))
              (<[i := Str.take (String.length (x +:+ y)
                     - String.length (Str.drop (String.length x) (x +:+ y)))
                    (x +:+ y)]> caps) = k y (<[i := x]> caps)).
  { rewrite drop_app_length, length_app_s.
    replace (String.length x + String.length y - String.length y)
      with (String.length x) by lia.
    rewrite take_app_length. reflexivity. }
  rewrite try_down_first; [exact Heq|exact Hlen|rewrite Heq; exact Hk].
Qed.

Lemma search_found r pre t :
  is_Some (Re.match_here r t) -> is_Some (Re.search r (pre +:+ t)).
Proof.
  intros H. induction pre as [|a pre IH]; simpl.
  - destruct t; simpl; destruct H as [v ->]; eauto.
  - destruct (Re.match_here r (String a (pre +:+ t))); eauto.
Qed.

Lemma search_Some r s m :
  Re.search r s = Some m ->
  exists pre t, s = pre +:+ t /\ Re.match_here r t = Some m.
Proof.
  induction s as [|a s IH]; simpl.
  - destruct (Re.match_here r "") eqn:H; [|discriminate].
    intros [= <-]. exists "", "". auto.
  - destruct (Re.match_here r (String a s)) eqn:H.
    + intros [= <-]. exists "", (String a s). auto.
    + intros Hs. destruct (IH Hs) as (pre & t & -> & Ht).
      exists (String a pre), t. auto.
Qed.

End MatcherFacts.

Section RepoPattern.

Let k0 : string -> gmap nat string -> option (gmap nat string) :=
  fun _ caps => Some caps.

(** The optional [(?:/tree/([^/]+)/(.+))?] of the pattern. *)
Let tree_part : Re.regex :=
  Re.Seq (Re.Lit "/tree/")
    (Re.Seq (Re.Group 3 (Re.Plus Re.NotSlash))
       (Re.Seq (Re.Lit "/") (Re.Group 4 (Re.Plus Re.Dot)))).

Lemma exec_seq {R} r1 r2 s caps (k : string -> gmap nat string -> option R) :
  Re.exec (Re.Seq r1 r2) s caps k
  = Re.exec r1 s caps (fun s' caps' => Re.exec r2 s' caps' k).
Proof. reflexivity. Qed.

Lemma exec_lit_app {R} l s caps (k : string -> gmap nat string -> option R) :
  Re.exec (Re.Lit l) (l +:+ s) caps k = k s caps.
Proof. cbn [Re.exec]. rewrite strip_prefix_app. reflexivity. Qed.

Lemma exec_opt_total r s caps : is_Some (Re.exec (Re.Opt r) s caps k0).
Proof. cbn [Re.exec]. destruct (Re.exec r s caps k0); unfold k0; eauto. Qed.

Lemma span_drop_span c s : Re.span c (Str.drop (Re.span c s) s) = 0.
Proof.
  induction s as [|a s IH]; [reflexivity|].
  cbn [Re.span]. destruct (Re.cls_ok c a) eqn:Ha; cbn [Str.drop Re.span].
  - exact IH.
  - rewrite Ha. reflexivity.
Qed.

Lemma exec_tree_part b sp caps :
  b <> "" -> all_cls Re.NotSlash b -> sp <> "" -> all_cls Re.Dot sp ->
  Re.exec (Re.Opt tree_part) ("/tree/" +:+ b +:+ "/" +:+ sp) caps k0
  = Some (<[4 := sp]> (<[3 := b]> caps)).
Proof.
  intros Hb Hbc Hsp Hspc.
  assert (H4 : forall caps', Re.exec (Re.Group 4 (Re.Plus Re.Dot)) sp caps' k0
                             = Some (<[4 := sp]> caps')).
  { intros caps'. rewrite <- (app_nil_r_s sp) at 1.
    rewrite exec_group_plus; unfold k0; eauto. }
  assert (H3 : Re.exec tree_part ("/tree/" +:+ b +:+ "/" +:+ sp) caps k0
               = Some (<[4 := sp]> (<[3 := b]> caps))).
  { unfold tree_part. rewrite exec_seq, exec_lit_app, exec_seq.
    rewrite exec_group_plus; try assumption; try reflexivity;
      rewrite exec_seq, (exec_lit_app "/"), H4; eauto. }
  cbn [Re.exec]. cbn [Re.exec] in H3. rewrite H3. reflexivity.
Qed.

Lemma match_here_plain o r :
  o <> "" -> all_cls Re.NotSlash o -> r <> "" -> all_cls Re.NotSlash r ->
  Re.match_here repo_path_re ("github.com/" +:+ o +:+ "/" +:+ r)
  = Some (<[2 := r]> (<[1 := o]> ∅)).
Proof.
  intros Ho Hoc Hr Hrc. unfold Re.match_here, repo_path_re.
  assert (H2 : forall caps,
             Re.exec (Re.Seq (Re.Group 2 (Re.Plus Re.NotSlash)) (Re.Opt tree_part))
               r caps k0 = Some (<[2 := r]> caps)).
  { intros caps. rewrite <- (app_nil_r_s r) at 1.
    rewrite exec_seq, exec_group_plus; try assumption; try reflexivity. eauto. }
  rewrite exec_seq, exec_lit_app, exec_seq.
  rewrite exec_group_plus; try assumption; try reflexivity;
    rewrite exec_seq, (exec_lit_app "/"); fold tree_part k0; rewrite H2; eauto.
Qed.

Lemma match_here_tree o r b sp :
  o <> "" -> all_cls Re.NotSlash o -> r <> "" -> all_cls Re.NotSlash r ->
  b <> "" -> all_cls Re.NotSlash b -> sp <> "" -> all_cls Re.Dot sp ->
  Re.match_here repo_path_re
    ("github.com/" +:+ o +:+ "/" +:+ r +:+ "/tree/" +:+ b +:+ "/" +:+ sp)
  = Some (<[4 := sp]> (<[3 := b]> (<[2 := r]> (<[1 := o]> ∅)))).
Proof.
  intros Ho Hoc Hr Hrc Hb Hbc Hsp Hspc. unfold Re.match_here, repo_path_re.
  assert (H2 : forall caps,
             Re.exec (Re.Seq (Re.Group 2 (Re.Plus Re.NotSlash)) (Re.Opt tree_part))
               (r +:+ "/tree/" +:+ b +:+ "/" +:+ sp) caps k0
             = Some (<[4 := sp]> (<[3 := b]> (<[2 := r]> caps)))).
  { intros caps.
    rewrite exec_seq, exec_group_plus; try assumption; try reflexivity;
      rewrite exec_tree_part; eauto. }
  rewrite exec_seq, exec_lit_app, exec_seq.
  rewrite exec_group_plus; try assumption; try reflexivity;
    rewrite exec_seq, (exec_lit_app "/"); fold tree_part k0; rewrite H2; eauto.
Qed.

(** Wherever the pattern matches, the text reads [github.com/], a non-empty
    segment, a slash and a character that is not a slash. *)
Lemma match_here_shape t m :
  Re.match_here repo_path_re t = Some m ->
  exists o c rest,
    t = "github.com/" +:+ o +:+ "/" +:+ String c rest
    /\ o <> "" /\ Str.contains "/" o = false /\ c <> "/"%char.
Proof.
  unfold Re.match_here, repo_path_re. cbn [Re.exec].
  destruct (Str.strip_prefix "github.com/" t) as [s1|] eqn:H1; [|discriminate].
  apply strip_prefix_Some in H1. subst t.
  intros H. apply try_down_Some in H. destruct H as (i & Hi & H).
  destruct (Str.strip_prefix "/" (Str.drop i s1)) as [s3|] eqn:H3; [|discriminate].
  apply strip_prefix_Some in H3.
  apply try_down_Some in H. destruct H as (j & Hj & _).
  destruct s3 as [|c rest]; [cbn [Re.span] in Hj; lia|].
  exists (Str.take i s1), c, rest.
  pose proof (span_le Re.NotSlash s1) as Hle.
  repeat split.
  - rewrite <- H3, take_drop_s. reflexivity.
  - intros Hnil. apply (f_equal String.length) in Hnil.
    rewrite length_take in Hnil by lia. simpl in Hnil. lia.
  - apply all_cls_no_slash, all_cls_take. lia.
  - intros ->. cbn [Re.span Re.cls_ok] in Hj. rewrite Ascii.eqb_refl in Hj.
    simpl in Hj. lia.
Qed.

Lemma match_here_accepts o c rest :
  o <> "" -> Str.contains "/" o = false -> c <> "/"%char ->
  is_Some (Re.match_here repo_path_re
             ("github.com/" +:+ o +:+ "/" +:+ String c rest)).
Proof.
  intros Ho Hoc Hc. unfold Re.match_here, repo_path_re.
  set (s := String c rest).
  assert (Hs : 1 <= Re.span Re.NotSlash s).
  { subst s. cbn [Re.span Re.cls_ok].
    destruct (Ascii.eqb_spec c "/"); [contradiction|]. simpl. lia. }
  clearbody s. pose proof (span_le Re.NotSlash s) as Hle.
  assert (H2 : forall caps,
             is_Some (Re.exec (Re.Seq (Re.Group 2 (Re.Plus Re.NotSlash))
                                 (Re.Opt tree_part)) s caps k0)).
  { intros caps. rewrite <- (take_drop_s (Re.span Re.NotSlash s) s).
    rewrite exec_seq, exec_group_plus.
    - apply exec_opt_total.
    - intros Hnil. apply (f_equal String.length) in Hnil.
      rewrite length_take in Hnil by lia. simpl in Hnil. lia.
    - apply all_cls_take. lia.
    - apply span_drop_span.
    - apply exec_opt_total. }
  rewrite exec_seq, exec_lit_app, exec_seq.
  rewrite exec_group_plus; try reflexivity; try assumption;
    try (apply no_slash_all_cls; assumption);
    rewrite exec_seq, (exec_lit_app "/"); apply H2.
Qed.

End RepoPattern.

Lemma search_here r s m : Re.match_here r s = Some m -> Re.search r s = Some m.
Proof. intros H. destruct s; simpl; rewrite H; reflexivity. Qed.

Lemma search_skip r a s :
  Re.match_here r (String a s) = None -> Re.search r (String a s) = Re.search r s.
Proof. intros H. cbn [Re.search]. rewrite H. reflexivity. Qed.

Lemma match_here_head a s :
  a <> "g"%char -> Re.match_here repo_path_re (String a s) = None.
Proof.
  intros Ha. unfold Re.match_here, repo_path_re. cbn [Re.exec Str.strip_prefix].
  destruct (Ascii.eqb_spec "g" a); [congruence|reflexivity].
Qed.

Lemma search_https s :
  Re.search repo_path_re ("https://" +:+ s) = Re.search repo_path_re s.
Proof.
  cbn [String.append].
  repeat (rewrite search_skip; [|apply match_here_head; discriminate]).
  reflexivity.
Qed.

(** C2 (as stated, refuted): a URL whose scheme is [ftp] and whose host is
    [notgithub.com] goes through the parse step of [run]. *)
Lemma parse_accepts_other_scheme_and_host :
  let url := "ftp://notgithub.com/acme/widgets" in
  Str.startswith "http://" url = false
  /\ Str.startswith "https://" url = false
  /\ parse_repo_url url
     = Some {| owner := "acme"; repo_name := "widgets";
               branch := "main"; subdir_path := "" |}.
Proof. cbv zeta. repeat split; vm_compute; reflexivity. Qed.

(** C2 (amended): the parse step of [run] succeeds exactly on the URLs that
    contain, at any place, [github.com/] followed by a non-empty segment, a
    slash and a further character that is not a slash; every other URL, such
    as [https://example.com/acme/widgets], leaves through the invalid-format
    exit.  The scheme and the host are checked by [start_grabbing] alone,
    before the pipeline is started, as the prefix [https://github.com/] or
    [http://github.com/]. *)
Theorem parse_accepts_iff :
  (forall url,
      is_Some (parse_repo_url url) <->
      exists pre o c rest,
        url = pre +:+ "github.com/" +:+ o +:+ "/" +:+ String c rest
        /\ o <> "" /\ Str.contains "/" o = false /\ c <> "/"%char)
  /\ parse_repo_url "https://example.com/acme/widgets" = None
  /\ (forall url,
         start_grabbing_url_ok url = true <->
         exists rest, url = "https://github.com/" +:+ rest
                      \/ url = "http://github.com/" +:+ rest).
Proof.
  split; [|split].
  - intros url. unfold parse_repo_url. split.
    + destruct (Re.search repo_path_re url) as [m|] eqn:Hs.
      * intros _. apply search_Some in Hs. destruct Hs as (pre & t & -> & Ht).
        apply match_here_shape in Ht.
        destruct Ht as (o & c & rest & -> & Ho & Hoc & Hc).
        exists pre, o, c, rest. auto.
      * intros [x Hx]. discriminate.
    + intros (pre & o & c & rest & -> & Ho & Hoc & Hc).
      destruct (search_found repo_path_re pre _ (match_here_accepts o c rest Ho Hoc Hc))
        as [m Hm].
      rewrite Hm. eauto.
  - vm_compute. reflexivity.
  - intros url. unfold start_grabbing_url_ok. rewrite orb_true_iff. split.
    + intros [H|H]; apply startswith_true in H; destruct H as [t ->]; eauto.
    + intros [rest [-> | ->]]; rewrite startswith_app; auto.
Qed.

(** C3: a URL [https://github.com/{owner}/{repo}] parses to the branch
    [main] and an empty subpath; a URL
    [https://github.com/{owner}/{repo}/tree/{branch}/{subpath}] parses to that
    branch and the whole subpath, slashes included.  Owner, repository and
    branch are non-empty segments without a slash; the subpath is non-empty
    and, as in any URL, holds no line feed. *)
Theorem parse_github_url o r b sp :
  o <> "" -> Str.contains "/" o = false ->
  r <> "" -> Str.contains "/" r = false ->
  b <> "" -> Str.contains "/" b = false ->
  sp <> "" -> Str.contains line_feed sp = false ->
  parse_repo_url ("https://github.com/" +:+ o +:+ "/" +:+ r)
  = Some {| owner := o; repo_name := r; branch := "main"; subdir_path := "" |}
  /\ parse_repo_url
       ("https://github.com/" +:+ o +:+ "/" +:+ r +:+ "/tree/" +:+ b +:+ "/" +:+ sp)
     = Some {| owner := o; repo_name := r; branch := b; subdir_path := sp |}.
Proof.
  intros Ho Hoc Hr Hrc Hb Hbc Hsp Hspc.
  apply no_slash_all_cls in Hoc, Hrc, Hbc. apply no_line_feed_all_cls in Hspc.
  change "https://github.com/" with ("https://" +:+ "github.com/").
  rewrite !app_assoc_s.
  unfold parse_repo_url. rewrite !search_https. split.
  - rewrite (search_here _ _ _ (match_here_plain o r Ho Hoc Hr Hrc)).
    unfold group, group_or. simplify_map_eq. reflexivity.
  - rewrite (search_here _ _ _ (match_here_tree o r b sp Ho Hoc Hr Hrc Hb Hbc Hsp Hspc)).
    unfold group, group_or. simplify_map_eq.
    destruct (String.eqb_spec b ""); [contradiction|].
    destruct (String.eqb_spec sp ""); [contradiction|]. reflexivity.
Qed.

Lemma parse_github_url_witness :
  parse_repo_url "https://github.com/acme/widgets"
  = Some {| owner := "acme"; repo_name := "widgets";
            branch := "main"; subdir_path := "" |}
  /\ parse_repo_url "https://github.com/acme/widgets/tree/dev/docs/api"
     = Some {| owner := "acme"; repo_name := "widgets";
               branch := "dev"; subdir_path := "docs/api" |}.
Proof.
  apply (parse_github_url "acme" "widgets" "dev" "docs/api");
    first [discriminate | vm_compute; reflexivity].
Defined.

(** ** The destination map *)

Section Destination.

Implicit Types (d : gmap path dentry) (p q : path).

Lemma elem_of_prefixes q p : q ∈ prefixes p <-> q `prefix_of` p.
Proof.
  revert q. induction p as [|x p IH]; intros q; cbn [prefixes].
  - rewrite list_elem_of_singleton. split.
    + intros ->. done.
    + intros H. by apply prefix_nil_inv.
  - rewrite elem_of_cons, list_elem_of_fmap. split.
    + intros [-> | (q' & -> & Hq')]; [apply prefix_nil|].
      apply IH in Hq'. by apply prefix_cons.
    + destruct q as [|y q]; [by left|]. intros H. right.
      pose proof (prefix_cons_inv_1 _ _ _ _ H) as ->.
      apply prefix_cons_inv_2 in H. exists q. split; [done|by apply IH].
Qed.

Lemma lookup_mkdirs qs d q :
  foldr (fun q acc => <[q := DDir]> acc) d qs !! q
  = if decide (q ∈ qs) then Some DDir else d !! q.
Proof.
  induction qs as [|q0 qs IH]; cbn [foldr].
  - destruct (decide (q ∈ [])) as [H|H]; [by apply elem_of_nil in H|done].
  - destruct (decide (q0 = q)) as [->|Hne].
    + rewrite lookup_insert_eq.
      destruct (decide (q ∈ q :: qs)) as [H|H]; [done|].
      exfalso. apply H. by left.
    + rewrite lookup_insert_ne by done. rewrite IH.
      destruct (decide (q ∈ qs)) as [H|H];
        destruct (decide (q ∈ q0 :: qs)) as [H'|H']; try done.
      * exfalso. apply H'. by right.
      * apply elem_of_cons in H' as [->|?]; done.
Qed.

(** [makedirs] succeeds when no file sits on the way, and then the
    directories down to [p] exist and nothing else has changed. *)
Lemma makedirs_exist_ok p d :
  (forall q, q `prefix_of` p -> is_dfile (d !! q) = false) ->
  exists d', makedirs true p d = Some d'
             /\ forall q, d' !! q = if decide (q `prefix_of` p) then Some DDir
                                    else d !! q.
Proof.
  intros Hfree. unfold makedirs.
  assert (Hnone : existsb (fun q => is_dfile (d !! q)) (prefixes p) = false).
  { apply not_true_is_false. intros H. apply existsb_exists in H.
    destruct H as (q & Hq & Hf). apply list_elem_of_In, elem_of_prefixes in Hq.
    rewrite Hfree in Hf by done. discriminate. }
  rewrite Hnone. cbn [negb andb]. eexists. split; [reflexivity|].
  intros q. rewrite lookup_mkdirs.
  destruct (decide (q ∈ prefixes p)) as [H|H];
    destruct (decide (q `prefix_of` p)) as [H'|H']; try done.
  - exfalso. apply H'. by apply elem_of_prefixes.
  - exfalso. apply H. by apply elem_of_prefixes.
Qed.

End Destination.

(** ** The loop of [filter_files] *)

Section FilterLoop.

Variable W : list walk_item.
Hypothesis Hsep : separated W.

Lemma inv_makedirs w d :
  dest_inv W d -> w ∈ W ->
  exists d', makedirs true (w_rel w) d = Some d'
             /\ dest_inv W d'
             /\ d' !! w_rel w = Some DDir
             /\ (forall q, d !! q = Some DDir -> d' !! q = Some DDir).
Proof.
  intros [Hd Hf] Hw.
  destruct (makedirs_exist_ok (w_rel w) d) as (d' & Hmk & Hlook).
  { intros q Hq. destruct (d !! q) as [[data|]|] eqn:Hdq; try reflexivity.
    destruct (Hf _ _ Hdq) as (w1 & f & Hw1 & Hf1 & ->).
    exfalso. exact (Hsep w1 w f Hw1 Hw Hf1 Hq). }
  exists d'. split; [exact Hmk|]. repeat split.
  - intros q. rewrite Hlook. destruct (decide (q `prefix_of` w_rel w)); eauto.
  - intros q data. rewrite Hlook.
    destruct (decide (q `prefix_of` w_rel w)); [discriminate|]. apply Hf.
  - rewrite Hlook. destruct (decide (w_rel w `prefix_of` w_rel w)) as [|H]; [done|].
    exfalso. by apply H.
  - intros q Hq. rewrite Hlook. destruct (decide (q `prefix_of` w_rel w)); done.
Qed.

Lemma copy_file_spec w f st src tgt :
  dest_inv W (dest st) -> w ∈ W -> f ∈ w_files w ->
  let st' := copy_file src tgt (w_rel w) f.1 f.2 st in
  dest_inv W (dest st')
  /\ copied_files st' = copied_files st ++ (if copyable f.2 then [tgt] else [])
  /\ printed st' = printed st ++ (if unreadable f.2 then [src] else [])
  /\ (forall q, dest st !! q = Some DDir -> dest st' !! q = Some DDir).
Proof.
  intros Hinv Hw Hf. cbv zeta. unfold copy_file.
  destruct (inv_makedirs w (dest st) Hinv Hw) as (d1 & -> & Hinv1 & Hdir & Hkeep).
  destruct f as [name n]. cbn [fst snd].
  assert (Hfree : d1 !! (w_rel w ++ [name]) <> Some DDir).
  { intros Hk. destruct Hinv1 as [Hd _]. destruct (Hd _ Hk) as [Hnil | (w2 & Hw2 & Hpre)].
    - by destruct (w_rel w).
    - exact (Hsep w w2 (name, n) Hw Hw2 Hf Hpre). }
  destruct n as [data [|] | | es]; cbn [copyable unreadable dest copied_files printed];
    rewrite ?app_nil_r;
    try (split; [exact Hinv1|]; split; [reflexivity|]; split;
         [reflexivity|exact Hkeep]).
  unfold write_file. rewrite Hdir.
  assert (Hw_ok : match d1 !! (w_rel w ++ [name]) with
                  | Some DDir => None
                  | _ => Some (<[w_rel w ++ [name] := DFile data]> d1)
                  end = Some (<[w_rel w ++ [name] := DFile data]> d1)).
  { destruct (d1 !! (w_rel w ++ [name])) as [[?|]|]; congruence. }
  rewrite Hw_ok. cbn [dest copied_files printed]. rewrite ?app_nil_r.
  destruct Hinv1 as [Hd Hfl]. repeat split.
  - intros q. rewrite lookup_insert.
    destruct (decide (w_rel w ++ [name] = q)); [discriminate|]. apply Hd.
  - intros q data'. rewrite lookup_insert.
    destruct (decide (w_rel w ++ [name] = q)) as [<-|]; [|apply Hfl].
    intros _. exists w, (name, File data true). repeat split; assumption.
  - intros q Hq. apply Hkeep in Hq. rewrite lookup_insert_ne; [exact Hq|].
    intros <-. contradiction.
Qed.

Lemma filter_files_of_dir filter_mode w target_path fs st :
  dest_inv W (dest st) -> w ∈ W -> (forall f, f ∈ fs -> f ∈ w_files w) ->
  let st' := foldl (filter_file filter_mode w target_path) st fs in
  dest_inv W (dest st')
  /\ copied_files st'
     = copied_files st
       ++ map (fun f => path_join target_path f.1)
            (List.filter (copied_ok filter_mode w) fs)
  /\ printed st'
     = printed st
       ++ map (source_file_of w) (List.filter (copy_fails filter_mode w) fs)
  /\ (forall q, dest st !! q = Some DDir -> dest st' !! q = Some DDir).
Proof.
  revert st. induction fs as [|f fs IH]; intros st Hinv Hw Hfs; cbv zeta.
  - cbn [foldl List.filter map]. rewrite !app_nil_r. auto.
  - cbn [foldl List.filter].
    assert (Hf : f ∈ w_files w) by (apply Hfs; left).
    assert (Hfs' : forall f', f' ∈ fs -> f' ∈ w_files w)
      by (intros f' Hf'; apply Hfs; by right).
    assert (Hstep : filter_file filter_mode w target_path st f
                    = if should_copy filter_mode f.1 (path_join (w_root w) f.1)
                      then copy_file (path_join (w_root w) f.1)
                             (path_join target_path f.1) (w_rel w) f.1 f.2 st
                      else st) by reflexivity.
    rewrite Hstep. clear Hstep.
    unfold copied_ok at 1, copy_fails at 1, passes.
    destruct (should_copy filter_mode f.1 (path_join (w_root w) f.1)) eqn:Hpass;
      cbn [andb].
    + destruct (copy_file_spec w f st (path_join (w_root w) f.1)
                  (path_join target_path f.1) Hinv Hw Hf)
        as (Hinv1 & Hc1 & Hp1 & Hk1).
      destruct (IH _ Hinv1 Hw Hfs') as (Hinv2 & Hc2 & Hp2 & Hk2).
      split; [exact Hinv2|]. split; [|split].
      * rewrite Hc2, Hc1. destruct (copyable f.2); cbn [map];
          rewrite <- ?app_assoc, ?app_nil_r; reflexivity.
      * rewrite Hp2, Hp1.
        destruct (unreadable f.2); cbn [map]; unfold source_file_of at 1;
          rewrite <- ?app_assoc, ?app_nil_r; reflexivity.
      * intros q Hq. apply Hk2, Hk1, Hq.
    + exact (IH _ Hinv Hw Hfs').
Qed.

Lemma filter_dir_spec target_dir filter_mode st w :
  dest_inv W (dest st) -> w ∈ W ->
  exists st',
    filter_dir target_dir filter_mode st w = Done st'
    /\ dest_inv W (dest st')
    /\ copied_files st'
       = copied_files st
         ++ map (target_file_of target_dir w)
              (List.filter (copied_ok filter_mode w) (w_files w))
    /\ printed st'
       = printed st
         ++ map (source_file_of w) (List.filter (copy_fails filter_mode w) (w_files w))
    /\ (forall q, dest st !! q = Some DDir -> dest st' !! q = Some DDir)
    /\ dest st' !! w_rel w = Some DDir.
Proof.
  intros Hinv Hw. unfold filter_dir.
  destruct (inv_makedirs w (dest st) Hinv Hw) as (d1 & -> & Hinv1 & Hdir & Hkeep).
  eexists. split; [reflexivity|].
  match goal with
  | |- context [foldl ?g ?s0 ?l] =>
      destruct (filter_files_of_dir filter_mode w
                  (path_join target_dir (relpath (w_rel w))) l s0)
        as (Hinv2 & Hc & Hp & Hk); [exact Hinv1|exact Hw|auto|]
  end.
  cbn [dest copied_files printed] in Hc, Hp, Hk.
  repeat split; try assumption.
  - apply Hinv2.
  - apply Hinv2.
  - intros q Hq. apply Hk, Hkeep, Hq.
  - apply Hk, Hdir.
Qed.

Lemma filter_loop_spec target_dir filter_mode ws st :
  dest_inv W (dest st) -> (forall w, w ∈ ws -> w ∈ W) ->
  exists st',
    filter_loop target_dir filter_mode ws st = Done st'
    /\ dest_inv W (dest st')
    /\ copied_files st'
       = copied_files st
         ++ walked_files (copied_ok filter_mode) (target_file_of target_dir) ws
    /\ printed st'
       = printed st ++ walked_files (copy_fails filter_mode) source_file_of ws
    /\ (forall q, dest st !! q = Some DDir -> dest st' !! q = Some DDir)
    /\ (forall w, w ∈ ws -> dest st' !! w_rel w = Some DDir).
Proof.
  revert st. induction ws as [|w ws IH]; intros st Hinv Hws.
  - exists st. cbn [filter_loop walked_files flat_map]. rewrite !app_nil_r.
    repeat split; try apply Hinv; auto. intros w Hw. by apply elem_of_nil in Hw.
  - cbn [filter_loop].
    destruct (filter_dir_spec target_dir filter_mode st w Hinv)
      as (st1 & -> & Hinv1 & Hc1 & Hp1 & Hk1 & Hd1); [apply Hws; left|].
    destruct (IH st1 Hinv1) as (st2 & -> & Hinv2 & Hc2 & Hp2 & Hk2 & Hd2);
      [intros w' Hw'; apply Hws; by right|].
    exists st2. split; [reflexivity|]. split; [exact Hinv2|].
    unfold walked_files in *. cbn [flat_map]. rewrite !app_assoc.
    rewrite <- Hc1, <- Hp1. repeat split; try assumption.
    + intros q Hq. apply Hk2, Hk1, Hq.
    + intros w' Hw'. apply elem_of_cons in Hw' as [->|Hw'].
      * apply Hk2, Hd1.
      * apply Hd2, Hw'.
Qed.

End FilterLoop.

(** ** The walk of a tree *)

Section Walk.

(** Induction on a tree, with the hypothesis for every entry of a
    directory. *)
Lemma node_ind (P : node -> Prop) :
  (forall data readable, P (File data readable)) ->
  P Other ->
  (forall es, Forall (fun e => P e.2) es -> P (Dir es)) ->
  forall n, P n.
Proof.
  intros HF HO HD. fix IH 1. intros [data readable| |es].
  - apply HF.
  - apply HO.
  - apply HD. induction es as [|[name c] es IHes]; constructor.
    + apply IH.
    + exact IHes.
Qed.

Lemma walk_Dir root rel es :
  walk root rel (Dir es)
  = {| w_root := root; w_rel := rel; w_files := non_dirs es |}
    :: flat_map (fun e => walk (path_join root e.1) (rel ++ [e.1]) e.2) es.
Proof.
  cbn [walk]. f_equal.
  induction es as [|[name c] es IH]; [reflexivity|].
  cbn [flat_map fst snd]. rewrite IH. reflexivity.
Qed.

Lemma elem_of_walk_Dir w root rel es :
  w ∈ walk root rel (Dir es) <->
  w = {| w_root := root; w_rel := rel; w_files := non_dirs es |}
  \/ exists name c, (name, c) ∈ es
                    /\ w ∈ walk (path_join root name) (rel ++ [name]) c.
Proof.
  rewrite walk_Dir, elem_of_cons. apply or_iff_compat_l.
  rewrite list_elem_of_In, in_flat_map. split.
  - intros ([name c] & Hin & Hw). exists name, c.
    split; by apply list_elem_of_In.
  - intros (name & c & Hin & Hw). exists (name, c).
    split; by apply list_elem_of_In.
Qed.

Lemma elem_of_non_dirs f es : f ∈ non_dirs es <-> f ∈ es /\ is_dir f.2 = false.
Proof.
  unfold non_dirs. rewrite !list_elem_of_In, filter_In, negb_true_iff. tauto.
Qed.

Lemma walk_rel_prefix n : forall root rel w,
  w ∈ walk root rel n -> rel `prefix_of` w_rel w.
Proof.
  induction n as [data readable| |es IH] using node_ind; intros root rel w Hw;
    try (by apply elem_of_nil in Hw).
  apply elem_of_walk_Dir in Hw as [-> | (name & c & Hin & Hw)]; [done|].
  rewrite Forall_forall in IH. specialize (IH _ Hin _ _ _ Hw).
  cbn [snd] in IH. eapply prefix_app_l. exact IH.
Qed.

Lemma walk_is_dir root rel n w : w ∈ walk root rel n -> is_dir n = true.
Proof. destruct n; [intros H; by apply elem_of_nil in H ..|reflexivity]. Qed.

Lemma prefix_snoc_eq (p q : path) a b :
  (p ++ [a]) `prefix_of` q -> (p ++ [b]) `prefix_of` q -> a = b.
Proof.
  intros [k1 ->] [k2 H]. rewrite <- !app_assoc in H.
  apply app_inv_head in H. by injection H.
Qed.

Lemma distinct_not_elem x l :
  existsb (String.eqb x) l = false -> x ∉ l.
Proof.
  intros H Hin. apply not_true_iff_false in H. apply H.
  apply existsb_exists. exists x. split; [by apply list_elem_of_In|].
  apply String.eqb_refl.
Qed.

Lemma distinct_fst_inj (es : list (string * node)) x c1 c2 :
  distinct (map fst es) = true -> (x, c1) ∈ es -> (x, c2) ∈ es -> c1 = c2.
Proof.
  induction es as [|[y c] es IH]; intros Hd H1 H2; [by apply elem_of_nil in H1|].
  cbn [map fst distinct] in Hd. apply andb_true_iff in Hd as [Hy Hd].
  apply negb_true_iff, distinct_not_elem in Hy.
  assert (Hfst : forall c', (y, c') ∈ es -> False).
  { intros c' Hin. apply Hy. change y with (fst (y, c')).
    by apply list_elem_of_fmap_2. }
  apply elem_of_cons in H1 as [[= -> ->]|H1]; apply elem_of_cons in H2 as [[= ->]|H2].
  - reflexivity.
  - exfalso. eauto.
  - subst. exfalso. eauto.
  - eauto.
Qed.

Lemma well_formed_Dir es :
  well_formed (Dir es) = true ->
  distinct (map fst es) = true /\ forall e, e ∈ es -> well_formed e.2 = true.
Proof.
  cbn [well_formed]. intros H. apply andb_true_iff in H as [Hd Hall].
  split; [exact Hd|]. clear Hd.
  induction es as [|e es IH]; intros e' He'; [by apply elem_of_nil in He'|].
  apply andb_true_iff in Hall as [He Hall].
  apply elem_of_cons in He' as [->|He']; [exact He|]. by apply IH.
Qed.

(** In a tree whose listings do not repeat a name, no walked file lies at or
    above a walked directory. *)
Lemma walk_separated n : forall root rel,
  well_formed n = true -> separated (walk root rel n).
Proof.
  induction n as [data readable| |es IH] using node_ind; intros root rel Hwf;
    try (intros w1 w2 f Hw1; by apply elem_of_nil in Hw1).
  apply well_formed_Dir in Hwf as [Hd Hwf]. rewrite Forall_forall in IH.
  intros w1 w2 f Hw1 Hw2 Hf Hpre.
  apply elem_of_walk_Dir in Hw1 as [-> | (n1 & c1 & Hin1 & Hw1)];
    apply elem_of_walk_Dir in Hw2 as [-> | (n2 & c2 & Hin2 & Hw2)];
    cbn [w_rel w_files] in *.
  - by apply prefix_snoc_not in Hpre.
  - apply elem_of_non_dirs in Hf as [Hf Hnd]. destruct f as [name c]. cbn [fst snd] in *.
    pose proof (walk_rel_prefix _ _ _ _ Hw2) as Hp2.
    pose proof (prefix_snoc_eq _ _ _ _ Hpre Hp2) as ->.
    pose proof (distinct_fst_inj _ _ _ _ Hd Hf Hin2) as ->.
    apply walk_is_dir in Hw2. congruence.
  - pose proof (walk_rel_prefix _ _ _ _ Hw1) as Hp1.
    apply prefix_length in Hp1, Hpre. rewrite !length_app in *. cbn in *. lia.
  - pose proof (walk_rel_prefix _ _ _ _ Hw1) as Hp1.
    pose proof (walk_rel_prefix _ _ _ _ Hw2) as Hp2.
    assert (Hp1' : (rel ++ [n1]) `prefix_of` w_rel w2).
    { etrans; [exact Hp1|]. etrans; [|exact Hpre]. by apply prefix_app_r. }
    pose proof (prefix_snoc_eq _ _ _ _ Hp1' Hp2) as ->.
    pose proof (distinct_fst_inj _ _ _ _ Hd Hin1 Hin2) as ->.
    exact (IH _ Hin2 _ _ (Hwf _ Hin2) w1 w2 f Hw1 Hw2 Hf Hpre).
Qed.

End Walk.

(** ** [filter_files] on a prepared destination *)

Lemma fresh_reference_inv W : dest_inv W fresh_reference.
Proof.
  unfold fresh_reference. split.
  - intros q Hq. apply lookup_singleton_Some in Hq as [<- _]. by left.
  - intros q data Hq. apply lookup_singleton_Some in Hq as [_ [=]].
Qed.

Lemma filter_files_spec source_dir source target_dir filter_mode :
  well_formed source = true ->
  exists st,
    filter_files source_dir source target_dir filter_mode fresh_reference = Done st
    /\ copied_files st
       = walked_files (copied_ok filter_mode) (target_file_of target_dir)
           (walk source_dir [] source)
    /\ printed st
       = walked_files (copy_fails filter_mode) source_file_of
           (walk source_dir [] source)
    /\ (forall w, w ∈ walk source_dir [] source -> dest st !! w_rel w = Some DDir).
Proof.
  intros Hwf. unfold filter_files.
  destruct (filter_loop_spec (walk source_dir [] source)
              (walk_separated source source_dir [] Hwf) target_dir filter_mode
              (walk source_dir [] source)
              {| dest := fresh_reference; copied_files := []; printed := [] |})
    as (st & Hrun & _ & Hc & Hp & _ & Hd).
  - apply fresh_reference_inv.
  - auto.
  - exists st. auto.
Qed.

Lemma find_entry_elem x es c : find_entry x es = Some c -> (x, c) ∈ es.
Proof.
  induction es as [|[y c'] es IH]; cbn [find_entry]; [discriminate|].
  destruct (String.eqb_spec y x) as [->|].
  - intros [= ->]. by left.
  - intros H. right. by apply IH.
Qed.

(** The walk reaches every directory of the tree. *)
Lemma walk_reaches p : forall n root rel es,
  lookup_node n p = Some (Dir es) ->
  exists w, w ∈ walk root rel n /\ w_rel w = rel ++ p.
Proof.
  induction p as [|x p IH]; intros n root rel es; cbn [lookup_node].
  - intros [= ->]. eexists. split; [apply elem_of_walk_Dir; by left|].
    cbn [w_rel]. by rewrite app_nil_r.
  - destruct n as [| |es0]; try discriminate.
    destruct (find_entry x es0) as [c|] eqn:Hx; [|discriminate].
    intros Hc. apply find_entry_elem in Hx.
    destruct (IH c (path_join root x) (rel ++ [x]) es Hc) as (w & Hw & Hrel).
    exists w. split.
    + apply elem_of_walk_Dir. right. eauto.
    + rewrite Hrel, <- app_assoc. reflexivity.
Qed.

(** C10: [filter_files] makes a destination directory for every directory
    of the source tree, the [.git] ones and the ones of which no file passes
    the filter included, and what it copies is decided file by file alone.
    Under [exclude_code], of a checkout with [.git/HEAD], [.git/hook.py], an
    empty directory and [src/x.py], the directories [.git], [empty] and [src]
    are made and [.git/HEAD] is the file copied. *)
Theorem filter_files_makes_every_directory source_dir source target_dir filter_mode :
  well_formed source = true ->
  (exists st,
      filter_files source_dir source target_dir filter_mode fresh_reference = Done st
      /\ (forall p es, lookup_node source p = Some (Dir es) -> dest st !! p = Some DDir)
      /\ copied_files st
         = walked_files (copied_ok filter_mode) (target_file_of target_dir)
             (walk source_dir [] source))
  /\ (exists st,
         filter_files "/tmp/tmpa1b2c3d4" Sample.checkout "/home/u/proj/reference"
           "exclude_code" fresh_reference = Done st
         /\ dest st !! [".git"] = Some DDir
         /\ dest st !! ["empty"] = Some DDir
         /\ dest st !! ["src"] = Some DDir
         /\ dest st !! [".git"; "HEAD"] = Some (DFile Sample.text)
         /\ dest st !! ["src"; "x.py"] = None
         /\ copied_files st = ["/home/u/proj/reference/.git/HEAD"]).
Proof.
  intros Hwf. split.
  - destruct (filter_files_spec source_dir source target_dir filter_mode Hwf)
      as (st & Hrun & Hc & _ & Hd).
    exists st. split; [exact Hrun|]. split; [|exact Hc].
    intros p es Hp.
    destruct (walk_reaches p source source_dir [] es Hp) as (w & Hw & Hrel).
    cbn [app] in Hrel. rewrite <- Hrel. by apply Hd.
  - eexists. split; [vm_compute; reflexivity|].
    repeat split; vm_compute; reflexivity.
Qed.

Lemma filter_files_makes_every_directory_witness :
  well_formed Sample.checkout = true
  /\ exists st,
      filter_files "/tmp/tmpa1b2c3d4" Sample.checkout "/home/u/proj/reference"
        "light_filter" fresh_reference = Done st
      /\ (forall p es, lookup_node Sample.checkout p = Some (Dir es) ->
                       dest st !! p = Some DDir)
      /\ copied_files st
         = walked_files (copied_ok "light_filter")
             (target_file_of "/home/u/proj/reference")
             (walk "/tmp/tmpa1b2c3d4" [] Sample.checkout).
Proof.
  split; [reflexivity|].
  exact (proj1 (filter_files_makes_every_directory "/tmp/tmpa1b2c3d4" Sample.checkout
                  "/home/u/proj/reference" "light_filter" eq_refl)).
Defined.

(** ** A file that cannot be copied *)

(** C8 (the code at the failing input): in mode [none] a single entry that
    cannot be copied ends the run.  With [a.md] unreadable the run reports
    the failure of [a.md], [b.md] is not copied and the manifest is not
    written; the same happens at a dangling link.  In the other branch the
    same checkout goes through: the run ends in success, [b.md] is copied and
    the manifest is written, as [filter_files] returns normally on every tree,
    with the readable files that pass the filter as copied and the unreadable
    ones that pass it as reported. *)
Theorem copy_failure_aborts_in_mode_none :
  let go mode tree :=
    run "https://github.com/acme/widgets" Sample.target mode
      (Sample.env_with "/tmp/tmpa1b2c3d4" (inr tree) true) Sample.empty_world in
  (let r := go "none" Sample.one_unreadable in
   succeeded r = false
   /\ last r.2 = Some (Finished false (ErrorOf (CopyError [["a.md"]])) "")
   /\ reference r.1 !! ["b.md"] = None
   /\ ai_instructions r.1 = None)
  /\ (let r := go "none" Sample.dangling_link in
      succeeded r = false
      /\ last r.2 = Some (Finished false (ErrorOf (CopyError [["latest"]])) "")
      /\ reference r.1 !! ["notes.md"] = None
      /\ ai_instructions r.1 = None)
  /\ (let r := go "exclude_code" Sample.one_unreadable in
      succeeded r = true
      /\ reference r.1 !! ["a.md"] = None
      /\ reference r.1 !! ["b.md"] = Some (DFile Sample.text)
      /\ is_Some (ai_instructions r.1))
  /\ (forall source_dir source target_dir filter_mode,
         well_formed source = true ->
         exists st,
           filter_files source_dir source target_dir filter_mode fresh_reference
           = Done st
           /\ copied_files st
              = walked_files (copied_ok filter_mode) (target_file_of target_dir)
                  (walk source_dir [] source)
           /\ printed st
              = walked_files (copy_fails filter_mode) source_file_of
                  (walk source_dir [] source)).
Proof.
  cbv zeta. split; [|split; [|split]].
  - repeat split; vm_compute; reflexivity.
  - repeat split; vm_compute; reflexivity.
  - split; [vm_compute; reflexivity|]. split; [vm_compute; reflexivity|].
    split; [vm_compute; reflexivity|]. vm_compute. eauto.
  - intros source_dir source target_dir filter_mode Hwf.
    destruct (filter_files_spec source_dir source target_dir filter_mode Hwf)
      as (st & Hrun & Hc & Hp & _).
    exists st. auto.
Qed.

(** ** Mode [none]: the copy of the whole tree *)

Section CopyTree.

Implicit Types (d : gmap path dentry) (p q : path).

Lemma copytree_Dir es p d :
  copytree (Dir es) p d
  = match makedirs false p d with
    | None => (d, [p])
    | Some d1 => copytree_entries p es d1 []
    end.
Proof. reflexivity. Qed.

Lemma makedirs_new p d :
  (forall q, q `prefix_of` p -> q <> p -> d !! q = Some DDir) ->
  d !! p = None ->
  exists d', makedirs false p d = Some d'
             /\ forall q, d' !! q = if decide (q `prefix_of` p) then Some DDir
                                    else d !! q.
Proof.
  intros Hup Hp.
  destruct (makedirs_exist_ok p d) as (d' & Hmk & Hlook).
  { intros q Hq. destruct (decide (q = p)) as [->|Hne]; [by rewrite Hp|].
    by rewrite (Hup q Hq Hne). }
  exists d'. split; [|exact Hlook].
  unfold makedirs in *.
  destruct (existsb (fun q => is_dfile (d !! q)) (prefixes p)); [discriminate|].
  rewrite Hp. cbn [negb andb] in *.
  rewrite bool_decide_eq_false_2; [exact Hmk|]. by intros [x Hx].
Qed.

Lemma find_entry_strip_git name es :
  name <> ".git" ->
  match strip_git (Dir es) with
  | Dir es' => find_entry name es'
  | _ => None
  end = strip_git <$> find_entry name es.
Proof.
  intros Hname. induction es as [|[x c] es IH]; [reflexivity|].
  cbn [strip_git find_entry] in *.
  destruct (String.eqb_spec x ".git") as [->|Hx].
  - destruct (String.eqb_spec ".git" name); [congruence|]. exact IH.
  - cbn [find_entry]. destruct (String.eqb_spec x name); [reflexivity|exact IH].
Qed.

Lemma find_entry_strip_git_None es :
  match strip_git (Dir es) with
  | Dir es' => find_entry ".git" es'
  | _ => None
  end = None.
Proof.
  induction es as [|[x c] es IH]; [reflexivity|].
  cbn [strip_git find_entry] in *.
  destruct (String.eqb_spec x ".git") as [->|Hx]; [exact IH|].
  cbn [find_entry]. destruct (String.eqb_spec x ".git"); [contradiction|exact IH].
Qed.

Lemma find_entry_distinct (es : list (string * node)) name c :
  distinct (map fst es) = true -> (name, c) ∈ es -> find_entry name es = Some c.
Proof.
  intros Hd Hin. destruct (find_entry name es) as [c'|] eqn:Hf.
  - apply find_entry_elem in Hf. by rewrite (distinct_fst_inj _ _ _ _ Hd Hin Hf).
  - exfalso. clear Hd. induction es as [|[x c0] es IH]; [by apply elem_of_nil in Hin|].
    cbn [find_entry] in Hf. destruct (String.eqb_spec x name) as [->|Hx]; [discriminate|].
    apply elem_of_cons in Hin as [[= <- <-]|Hin]; [contradiction|]. by apply IH.
Qed.

Lemma all_readable_Dir es :
  all_readable (Dir es) = true ->
  forall name c, (name, c) ∈ es -> name <> ".git" -> all_readable c = true.
Proof.
  cbn [all_readable]. induction es as [|[x c0] es IH]; intros Hall name c Hin Hname;
    [by apply elem_of_nil in Hin|].
  apply andb_true_iff in Hall as [Hc Hall].
  apply elem_of_cons in Hin as [[= -> ->]|Hin]; [|by eapply IH].
  apply orb_true_iff in Hc as [Hc|Hc]; [|exact Hc].
  apply String.eqb_eq in Hc. contradiction.
Qed.

(** The record of failed entries only grows. *)
Lemma copytree_entries_errors p l : forall d errors d' errors',
  copytree_entries p l d errors = (d', errors') -> errors `prefix_of` errors'.
Proof.
  induction l as [|[name c] l IH]; intros d errors d' errors'; cbn [copytree_entries].
  - by intros [= _ ->].
  - destruct (String.eqb name ".git"); [apply IH|].
    destruct c as [data readable| |es].
    + destruct (copy2 _ p name d); intros H; apply IH in H; [exact H|].
      eapply prefix_app_l. exact H.
    + destruct (copy2 _ p name d); intros H; apply IH in H; [exact H|].
      eapply prefix_app_l. exact H.
    + intros H. apply IH in H. eapply prefix_app_l. exact H.
Qed.

(** When [copytree]'s loop, run at the root, records no failure, the loop
    of [run] makes the same copy without raising. *)
Lemma copy_items_entries l : forall d d',
  copytree_entries [] l d [] = (d', []) -> copy_items l d = Done d'.
Proof.
  induction l as [|[name c] l IH]; intros d d'; cbn [copytree_entries copy_items].
  - by intros [= ->].
  - destruct (String.eqb name ".git"); [apply IH|].
    destruct c as [data readable| |es]; cbn [is_dir app].
    + destruct (copy2 _ [] name d) as [d1|]; [apply IH|].
      intros H. apply copytree_entries_errors, prefix_nil_inv in H. discriminate.
    + destruct (copy2 _ [] name d) as [d1|]; [apply IH|].
      intros H. apply copytree_entries_errors, prefix_nil_inv in H. discriminate.
    + destruct (copytree (Dir es) [name] d) as [d1 e1] eqn:Hc. cbn [fst snd app].
      intros H. pose proof (copytree_entries_errors _ _ _ _ _ _ H) as He.
      apply prefix_nil_inv in He. subst e1. by apply IH.
Qed.

Lemma prefix_snoc_inv p q (x : string) :
  q `prefix_of` (p ++ [x]) -> q <> p ++ [x] -> q `prefix_of` p.
Proof.
  intros [k Hk] Hne. destruct k as [|y k _] using rev_ind.
  - rewrite app_nil_r in Hk. congruence.
  - rewrite app_assoc in Hk. apply app_inj_tail in Hk as [-> _]. by exists k.
Qed.

Lemma prefix_snoc_cons p (a b : string) q' :
  (p ++ [a]) `prefix_of` (p ++ b :: q') -> a = b.
Proof.
  intros H. eapply prefix_snoc_eq; [exact H|].
  exists q'. by rewrite <- app_assoc.
Qed.

Lemma snoc_cons_ne p (a b : string) k q' : a <> b -> (p ++ [a]) ++ k <> p ++ b :: q'.
Proof.
  intros Hne H. rewrite <- app_assoc in H. apply app_inv_head in H.
  injection H. congruence.
Qed.

Lemma copy_of_file data readable q' :
  copy_of (File data readable) q' = if decide (q' = []) then Some (DFile data) else None.
Proof. destruct q'; reflexivity. Qed.

(** The loop over the entries of a directory that exists at [p], started
    where nothing lies below [p] under the names still to come. *)
Lemma copytree_entries_spec p l :
  Forall (fun e => copytree_ok e.2) l ->
  distinct (map fst l) = true ->
  (forall name c, (name, c) ∈ l -> name <> ".git" ->
                  well_formed c = true /\ all_readable c = true) ->
  forall d errors,
    (forall q, q `prefix_of` p -> d !! q = Some DDir) ->
    (forall name c q', (name, c) ∈ l -> d !! (p ++ name :: q') = None) ->
    exists d',
      copytree_entries p l d errors = (d', errors)
      /\ (forall name c q', (name, c) ∈ l -> name <> ".git" ->
                            d' !! (p ++ name :: q') = copy_of (strip_git c) q')
      /\ (forall q,
             (forall name c q', (name, c) ∈ l -> name <> ".git" ->
                                q <> p ++ name :: q') ->
             d' !! q = d !! q).
Proof.
  induction l as [|[name c] l IH]; intros Hok Hd Hgood d errors Hup Hfree.
  { exists d. split; [reflexivity|]. split; [|reflexivity].
    intros name c q' Hin. by apply elem_of_nil in Hin. }
  apply Forall_cons in Hok as [Hc Hok].
  cbn [map fst distinct] in Hd. apply andb_true_iff in Hd as [Hname Hd].
  apply negb_true_iff, distinct_not_elem in Hname.
  assert (Hother : forall n' c', (n', c') ∈ l -> n' <> name).
  { intros n' c' Hin ->. apply Hname. change name with (fst (name, c')).
    by apply list_elem_of_fmap_2. }
  assert (Hgood' : forall n' c', (n', c') ∈ l -> n' <> ".git" ->
                                 well_formed c' = true /\ all_readable c' = true).
  { intros n' c' Hin. apply Hgood. by right. }
  specialize (IH Hok Hd Hgood').
  cbn [copytree_entries]. destruct (String.eqb_spec name ".git") as [Hgit|Hgit].
  - (* the entry is left out *)
    destruct (IH d errors Hup) as (d' & Hrun & Ha & Hb).
    { intros n' c' q' Hin. apply (Hfree n' c'). by right. }
    exists d'. split; [exact Hrun|]. split.
    + intros n' c' q' Hin Hne. apply elem_of_cons in Hin as [[= -> ->]|Hin];
        [contradiction|]. by eapply Ha.
    + intros q Hav. apply Hb. intros n' c' q' Hin Hne. apply (Hav n' c'); [by right|done].
  - destruct (Hgood name c) as [Hwf Hrd]; [by left|done|].
    cbn [snd] in Hc.
    destruct c as [data readable| |es].
    + (* a regular file *)
      cbn [all_readable] in Hrd. subst readable. cbn [copy2].
      assert (Hnone : d !! (p ++ [name]) = None) by (apply (Hfree name (File data true) []); by left).
      rewrite Hnone. unfold write_file. rewrite (Hup p) by done. rewrite Hnone.
      destruct (IH (<[p ++ [name] := DFile data]> d) errors) as (d' & Hrun & Ha & Hb).
      { intros q Hq. rewrite lookup_insert_ne; [by apply Hup|].
        intros <-. by apply prefix_snoc_not in Hq. }
      { intros n' c' q' Hin. rewrite lookup_insert_ne.
        - apply (Hfree n' c'). by right.
        - intros H. apply (snoc_cons_ne p name n' [] q'); [|by rewrite app_nil_r].
          intros ->. by eapply Hother. }
      exists d'. split; [exact Hrun|]. split.
      * intros n' c' q' Hin Hne. apply elem_of_cons in Hin as [[= -> ->]|Hin];
          [|by eapply Ha].
        rewrite Hb.
        -- cbn [strip_git]. rewrite copy_of_file.
           destruct (decide (q' = [])) as [->|Hq']; [by rewrite lookup_insert_eq|].
           rewrite lookup_insert_ne; [apply (Hfree name (File data true)); by left|].
           intros H. apply app_inv_head in H. congruence.
        -- intros n' c' q'' Hin' _ H. apply app_inv_head in H.
           injection H as -> _. by eapply Hother.
      * intros q Hav. rewrite Hb.
        -- rewrite lookup_insert_ne; [done|]. intros <-.
           apply (Hav name (File data true) []); [by left|done|done].
        -- intros n' c' q' Hin Hne. apply (Hav n' c'); [by right|done].
    + discriminate.
    + (* a directory *)
      destruct (Hc (p ++ [name]) d eq_refl Hwf Hrd) as (d1 & Hcopy & Ha1 & Hb1).
      { intros q'. rewrite <- app_assoc. apply (Hfree name (Dir es)). by left. }
      { intros q Hq Hne. apply Hup. by eapply prefix_snoc_inv. }
      rewrite Hcopy. cbn [fst snd]. rewrite app_nil_r.
      destruct (IH d1 errors) as (d' & Hrun & Ha & Hb).
      { intros q Hq. rewrite Hb1; [by apply Hup|].
        intros Hpre. apply (prefix_snoc_not p name). by etrans. }
      { intros n' c' q' Hin. rewrite Hb1; [apply (Hfree n' c'); by right|].
        intros Hpre. apply prefix_snoc_cons in Hpre. subst n'. by eapply Hother. }
      exists d'. split; [exact Hrun|]. split.
      * intros n' c' q' Hin Hne. apply elem_of_cons in Hin as [[= -> ->]|Hin];
          [|by eapply Ha].
        rewrite Hb.
        -- rewrite <- Ha1, <- app_assoc. reflexivity.
        -- intros n' c' q'' Hin' _ H. apply app_inv_head in H.
           injection H as -> _. by eapply Hother.
      * intros q Hav. rewrite Hb.
        -- apply Hb1. intros [k ->]. rewrite <- app_assoc in Hav.
           apply (Hav name (Dir es) k); [by left|done|done].
        -- intros n' c' q' Hin Hne. apply (Hav n' c'); [by right|done].
Qed.

(** From the two facts the loop gives to the shape of the copy. *)
Lemma entries_as_tree p es d d' :
  distinct (map fst es) = true ->
  d !! p = Some DDir ->
  (forall name q', d !! (p ++ name :: q') = None) ->
  (forall name c q', (name, c) ∈ es -> name <> ".git" ->
                     d' !! (p ++ name :: q') = copy_of (strip_git c) q') ->
  (forall q,
      (forall name c q', (name, c) ∈ es -> name <> ".git" -> q <> p ++ name :: q') ->
      d' !! q = d !! q) ->
  forall q', d' !! (p ++ q') = copy_of (strip_git (Dir es)) q'.
Proof.
  intros Hd Hp Hfree Ha Hb [|name q''].
  - rewrite app_nil_r, Hb, Hp; [reflexivity|].
    intros n' c' q' _ _ H. apply (f_equal length) in H.
    rewrite length_app in H. cbn in H. lia.
  - unfold copy_of.
    change (lookup_node (strip_git (Dir es)) (name :: q''))
      with (match (match strip_git (Dir es) with
                   | Dir es' => find_entry name es'
                   | _ => None
                   end) with
            | Some c => lookup_node c q''
            | None => None
            end).
    destruct (decide (name = ".git")) as [->|Hname].
    + rewrite find_entry_strip_git_None, Hb; [apply Hfree|].
      intros n' c' q' _ Hne H. apply app_inv_head in H. congruence.
    + rewrite (find_entry_strip_git name es Hname).
      destruct (find_entry name es) as [c|] eqn:Hfind; cbn [fmap option_fmap option_map].
      * apply find_entry_elem in Hfind. by rewrite (Ha name c q'' Hfind Hname).
      * rewrite Hb; [apply Hfree|].
        intros n' c' q' Hin _ H. apply app_inv_head in H. injection H as <- _.
        rewrite (find_entry_distinct es name c' Hd Hin) in Hfind. discriminate.
Qed.

Lemma copytree_spec c : copytree_ok c.
Proof.
  induction c as [data readable| |es IH] using node_ind;
    try (intros p d Hdir; discriminate).
  intros p d _ Hwf Hrd Hfree Hup. rewrite copytree_Dir.
  destruct (makedirs_new p d Hup) as (d0 & -> & Hlook).
  { rewrite <- (app_nil_r p). apply Hfree. }
  pose proof (well_formed_Dir es Hwf) as [Hd Hwfs].
  assert (Hfree0 : forall name q', d0 !! (p ++ name :: q') = None).
  { intros name q'. rewrite Hlook, decide_False; [apply Hfree|].
    intros Hpre. apply prefix_length in Hpre. rewrite length_app in Hpre.
    cbn in Hpre. lia. }
  assert (Hp0 : d0 !! p = Some DDir) by (rewrite Hlook, decide_True; done).
  destruct (copytree_entries_spec p es IH Hd) with (d := d0) (errors := @nil path)
    as (d' & Hrun & Ha & Hb).
  { intros name c Hin Hne. split.
    - apply (Hwfs (name, c) Hin).
    - by apply (all_readable_Dir es Hrd name c). }
  { intros q Hq. rewrite Hlook, decide_True; done. }
  { intros name c q' _. apply Hfree0. }
  exists d'. split; [exact Hrun|]. split.
  - by apply (entries_as_tree p es d0 d').
  - intros q Hq. rewrite Hb.
    + rewrite Hlook. destruct (decide (q `prefix_of` p)) as [Hpre|]; [|done].
      symmetry. apply Hup; [done|]. intros ->. by apply Hq.
    + intros name c q' _ _ ->. apply Hq. by apply prefix_app_r.
Qed.

End CopyTree.

(** Mode [none] on a source directory in which every entry can be read:
    the destination becomes the source tree without the entries named
    [.git]; every other directory is there and every other file is there
    with its bytes, at the same path, and nothing else is. *)
Lemma copy_all_readable_tree es :
  well_formed (Dir es) = true ->
  all_readable (Dir es) = true ->
  exists d,
    copy_all (Dir es) fresh_reference = Done d
    /\ forall q, d !! q = copy_of (strip_git (Dir es)) q.
Proof.
  intros Hwf Hrd. cbn [copy_all].
  pose proof (well_formed_Dir es Hwf) as [Hd Hwfs].
  assert (Hfree : forall name q', fresh_reference !! ([] ++ name :: q') = None)
    by (intros name q'; by apply lookup_singleton_ne).
  destruct (copytree_entries_spec [] es) with (d := fresh_reference) (errors := @nil path)
    as (d' & Hrun & Ha & Hb).
  - apply Forall_forall. intros e _. apply copytree_spec.
  - exact Hd.
  - intros name c Hin Hne. split.
    + apply (Hwfs (name, c) Hin).
    + by apply (all_readable_Dir es Hrd name c).
  - intros q Hq. apply prefix_nil_inv in Hq. subst q. apply lookup_singleton_eq.
  - intros name c q' _. apply Hfree.
  - exists d'. split; [by apply copy_items_entries|].
    apply (entries_as_tree [] es fresh_reference d'); try assumption.
    apply lookup_singleton_eq.
Qed.

(** C6 (the code at the failing input): in mode [none] the source tree is
    reproduced, without its [.git], when every entry of it can be read.  At
    an entry that cannot, the copy stops: in a checkout with the dangling
    link [latest] listed before [notes.md] and [docs/guide.md], the run ends
    in failure and neither the file nor the directory is in the
    destination. *)
Theorem copy_all_stops_at_dangling_link :
  (forall es,
      well_formed (Dir es) = true ->
      all_readable (Dir es) = true ->
      exists d,
        copy_all (Dir es) fresh_reference = Done d
        /\ forall q, d !! q = copy_of (strip_git (Dir es)) q)
  /\ (let r := run "https://github.com/acme/widgets" Sample.target "none"
                 (Sample.env_with "/tmp/tmpa1b2c3d4" (inr Sample.dangling_link) true)
                 Sample.empty_world in
      succeeded r = false
      /\ lookup_node Sample.dangling_link ["notes.md"] = Some Sample.file
      /\ lookup_node Sample.dangling_link ["docs"; "guide.md"] = Some Sample.file
      /\ reference r.1 !! ["notes.md"] = None
      /\ reference r.1 !! ["docs"] = None
      /\ reference r.1 !! ["docs"; "guide.md"] = None).
Proof.
  split; [exact copy_all_readable_tree|].
  cbv zeta. repeat split; vm_compute; reflexivity.
Qed.


(** * Further properties of the code *)

(** ** What every run emits and what a failed run leaves behind *)

Local Ltac run_cases :=
  unfold run;
  repeat match goal with
         | |- context [match ?x with _ => _ end] =>
             lazymatch x with
             | context [last] => fail
             | context [progress_values] => fail
             | _ => destruct x eqn:?
             end
         end.

Lemma copy_phase_status filter_mode source_dir source reference_dir ref :
  exists t, (copy_phase filter_mode source_dir source reference_dir ref).1 = Status t.
Proof. unfold copy_phase. destruct (String.eqb filter_mode "none"); eauto. Qed.

Local Ltac name_copy_status :=
  repeat match goal with
         | |- context [(copy_phase ?m ?sd ?n ?rd ?r).1] =>
             let t := fresh "t" in
             let Ht := fresh "Ht" in
             destruct (copy_phase_status m sd n rd r) as [t Ht]; rewrite Ht
         end.

(** X1: [finished_signal] is emitted exactly once in every run, as the last
    signal. *)
Theorem run_finishes_once repo_url target_path filter_mode e w :
  exists before success msg docs_path,
    (run repo_url target_path filter_mode e w).2
    = before ++ [Finished success msg docs_path]
    /\ forallb (fun x => negb (is_finished x)) before = true.
Proof.
  run_cases; cbn [fst snd]; name_copy_status; cbn [app];
    match goal with
    | |- exists _ _ _ _, ?l = _ /\ _ =>
        exists (removelast l); cbn [removelast];
        eexists _, _, _; split; reflexivity
    end.
Qed.

(** X2: the progress values of a run are, in this order, 10, 40, 60, 80 and
    100, cut short where the run fails; 100 is reached exactly by the runs
    that report success. *)
Theorem run_progress repo_url target_path filter_mode e w :
  let r := run repo_url target_path filter_mode e w in
  (succeeded r = true /\ progress_values r.2 = [10; 40; 60; 80; 100])
  \/ (succeeded r = false
      /\ (progress_values r.2 = [10] \/ progress_values r.2 = [10; 40]
          \/ progress_values r.2 = [10; 40; 60]
          \/ progress_values r.2 = [10; 40; 60; 80])).
Proof.
  cbv zeta. unfold succeeded.
  run_cases; cbn [fst snd]; name_copy_status; cbn; tauto.
Qed.

(** X3: a run that ends at one of its three early exits has changed
    nothing under the target path.  The messages sent with a failure other
    than [Error: ...] are those of the invalid URL, of the failed clone and of
    the subpath that is not found; a run that ends with one of them leaves the
    reference directory and [ai-instructions.md] as they were.  And no run
    touches [ai-instructions.md] before it has emitted the progress value
    80. *)
Theorem early_exit_keeps_target repo_url target_path filter_mode e w :
  let r := run repo_url target_path filter_mode e w in
  (forall s docs_path,
      last r.2 = Some (Finished false (Text s) docs_path) ->
      (s = "Invalid GitHub URL format"
       \/ (exists stderr, s = "Git clone failed: " +:+ stderr)
       \/ (exists p, s = "Specified path '" +:+ p +:+ "' not found in repository"))
      /\ reference r.1 = reference w
      /\ ai_instructions r.1 = ai_instructions w)
  /\ (~ In 80 (progress_values r.2) -> ai_instructions r.1 = ai_instructions w).
Proof.
  cbv zeta. split.
  - intros s docs_path.
    run_cases; cbn [fst snd reference ai_instructions]; name_copy_status;
      rewrite ?last_app; cbn [last]; intros [= <- <-]; eauto 6.
  - run_cases; cbn [fst snd ai_instructions]; try reflexivity;
      name_copy_status; intros H; exfalso; apply H; cbn; tauto.
Qed.

(** ** More on the classifiers *)

Lemma endswith_unfold s e :
  Str.endswith s e
  = (String.eqb s e
     || match s with
        | EmptyString => false
        | String _ s' => Str.endswith s' e
        end).
Proof. destruct s; reflexivity. Qed.

(** Two endings of one string: one of them is an ending of the other. *)
Lemma endswith_two s e1 e2 :
  Str.endswith s e1 = true -> Str.endswith s e2 = true ->
  Str.endswith e1 e2 = true \/ Str.endswith e2 e1 = true.
Proof.
  induction s as [|a s IH]; rewrite (endswith_unfold _ e1), (endswith_unfold _ e2);
    intros H1 H2; apply orb_true_iff in H1, H2.
  - destruct H1 as [H1|]; [|discriminate]. destruct H2 as [H2|]; [|discriminate].
    apply String.eqb_eq in H1, H2. subst. left.
    rewrite endswith_unfold. reflexivity.
  - destruct H1 as [H1|H1].
    + apply String.eqb_eq in H1. subst e1. left.
      rewrite endswith_unfold. apply orb_true_iff. exact H2.
    + destruct H2 as [H2|H2]; [|by apply IH].
      apply String.eqb_eq in H2. subst e2. right.
      rewrite endswith_unfold. apply orb_true_iff. by right.
Qed.

Lemma any_endswith_disjoint s (l1 l2 : list string) :
  forallb (fun e1 => forallb (fun e2 => negb (Str.endswith e1 e2 || Str.endswith e2 e1)) l2)
    l1 = true ->
  Str.any (fun ext => Str.endswith s ext) l1 = true ->
  Str.any (fun ext => Str.endswith s ext) l2 = false.
Proof.
  unfold Str.any. intros Hdis H1. apply not_true_is_false. intros H2.
  apply existsb_exists in H1 as (e1 & Hin1 & He1).
  apply existsb_exists in H2 as (e2 & Hin2 & He2).
  rewrite forallb_forall in Hdis. specialize (Hdis e1 Hin1).
  rewrite forallb_forall in Hdis. specialize (Hdis e2 Hin2).
  apply negb_true_iff, orb_false_iff in Hdis as [Ha Hb].
  destruct (endswith_two _ _ _ He1 He2); congruence.
Qed.

(** X4: a name that [is_markdown_file] accepts is never a code file and
    never has a binary extension; so every file that [markdown_only] keeps is
    kept by [exclude_code] too. *)
Theorem markdown_is_not_code filename source_file :
  is_markdown_file filename = true ->
  is_code_file filename = false
  /\ is_binary filename = false
  /\ should_copy "exclude_code" filename source_file = true.
Proof.
  intros H. unfold is_markdown_file in H.
  assert (Hc : is_code_file filename = false).
  { unfold is_code_file. eapply any_endswith_disjoint; [|exact H].
    vm_compute. reflexivity. }
  split; [exact Hc|]. split.
  - unfold is_binary. eapply any_endswith_disjoint; [|exact H].
    vm_compute. reflexivity.
  - change (negb (is_code_file filename) = true). by rewrite Hc.
Qed.

Lemma markdown_is_not_code_witness :
  is_markdown_file "Guide.MDX" = true
  /\ is_code_file "Guide.MDX" = false
  /\ is_binary "Guide.MDX" = false
  /\ should_copy "exclude_code" "Guide.MDX" "/tmp/tmpa1b2c3d4/Guide.MDX" = true.
Proof.
  split; [reflexivity|].
  exact (markdown_is_not_code "Guide.MDX" "/tmp/tmpa1b2c3d4/Guide.MDX" eq_refl).
Defined.

Lemma lower_char_idem a : Str.lower_char (Str.lower_char a) = Str.lower_char a.
Proof. destruct a as [[] [] [] [] [] [] [] []]; reflexivity. Qed.

Lemma lower_idem s : Str.lower (Str.lower s) = Str.lower s.
Proof. induction s as [|a s IH]; cbn [Str.lower]; [reflexivity|]. by rewrite lower_char_idem, IH. Qed.

(** An ending of a lowered string is itself in lower case. *)
Lemma endswith_lower s e :
  Str.endswith (Str.lower s) e = true -> Str.lower e = e.
Proof.
  induction s as [|a s IH]; rewrite endswith_unfold; cbn [Str.lower];
    intros H; apply orb_true_iff in H as [H|H]; try discriminate.
  - apply String.eqb_eq in H. by subst e.
  - apply String.eqb_eq in H. subst e.
    change (Str.lower (Str.lower (String a s)) = Str.lower (String a s)).
    apply lower_idem.
  - by apply IH.
Qed.

Lemma In_by_eqb x (l : list string) : existsb (String.eqb x) l = true -> In x l.
Proof.
  intros H. apply existsb_exists in H as (y & Hy & Hxy).
  apply String.eqb_eq in Hxy. by subst y.
Qed.

(** X5: the entries [.DS_Store] and [Thumbs.db] of [binary_extensions] match
    no file name, since they are compared with [filename.lower()]: a file
    named [.DS_Store] is not binary or generated for the light filter (a
    [Thumbs.db] is, by the entry [.db]). *)
Theorem mixed_case_extensions_never_match :
  (forall filename, Str.endswith (Str.lower filename) ".DS_Store" = false)
  /\ (forall filename, Str.endswith (Str.lower filename) "Thumbs.db" = false)
  /\ In ".DS_Store" binary_extensions
  /\ In "Thumbs.db" binary_extensions
  /\ is_binary_or_generated_file ".DS_Store" = false
  /\ is_binary_or_generated_file "Thumbs.db" = true.
Proof.
  split; [|split].
  - intros f. apply not_true_is_false. intros H. by apply endswith_lower in H.
  - intros f. apply not_true_is_false. intros H. by apply endswith_lower in H.
  - repeat split; try (vm_compute; reflexivity);
      apply In_by_eqb; vm_compute; reflexivity.
Qed.

Lemma contains_app pat pre post : Str.contains pat (pre +:+ pat +:+ post) = true.
Proof.
  induction pre as [|a pre IH].
  - cbn [String.append]. destruct (pat +:+ post) eqn:E;
      cbn [Str.contains]; rewrite <- E, startswith_app; reflexivity.
  - cbn [String.append Str.contains]. rewrite IH. apply orb_true_r.
Qed.

(** X6: the generated-pattern check is a substring test on the whole path: a
    path in which one of the fragments occurs anywhere, inside a directory
    name or inside a file name, is binary or generated. *)
Theorem generated_fragment_anywhere pattern before after :
  In pattern generated_patterns ->
  is_binary_or_generated_file (before +:+ pattern +:+ after) = true.
Proof.
  intros Hin. unfold is_binary_or_generated_file. apply orb_true_iff. right.
  unfold is_generated, Str.any. apply existsb_exists.
  exists pattern. split; [exact Hin|apply contains_app].
Qed.

Lemma generated_fragment_anywhere_witness :
  In "bin" generated_patterns
  /\ is_binary_or_generated_file "docs/cabinet.md" = true.
Proof.
  assert (H : In "bin" generated_patterns)
    by (apply In_by_eqb; vm_compute; reflexivity).
  split; [exact H|].
  exact (generated_fragment_anywhere "bin" "docs/ca" "et.md" H).
Defined.


(** ** More on the parse step *)

Section RepoTail.

Let k0 : string -> gmap nat string -> option (gmap nat string) :=
  fun _ caps => Some caps.

Let tree_part : Re.regex :=
  Re.Seq (Re.Lit "/tree/")
    (Re.Seq (Re.Group 3 (Re.Plus Re.NotSlash))
       (Re.Seq (Re.Lit "/") (Re.Group 4 (Re.Plus Re.Dot)))).

Lemma try_down_None {R} n s (k : string -> option R) :
  (forall i, 1 <= i <= n -> k (Str.drop i s) = None) -> Re.try_down n s k = None.
Proof.
  induction n as [|n IH]; intros H; cbn [Re.try_down]; [reflexivity|].
  rewrite (H (S n)) by lia. apply IH. intros i Hi. apply H. lia.
Qed.

(** Inside a run of characters other than the slash, no slash comes next. *)
Lemma no_slash_inside i s :
  i < Re.span Re.NotSlash s -> Str.strip_prefix "/" (Str.drop i s) = None.
Proof.
  revert s. induction i as [|i IH]; intros [|a s]; cbn [Re.span Re.cls_ok Str.drop];
    try lia.
  - cbn [Str.strip_prefix]. rewrite (Ascii.eqb_sym "/" a).
    destruct (Ascii.eqb a "/"); cbn [negb]; [lia|reflexivity].
  - destruct (Ascii.eqb a "/"); cbn [negb]; [lia|]. intros H. apply IH. lia.
Qed.

Lemma take_span_nonempty c s :
  0 < Re.span c s -> Str.take (Re.span c s) s <> "".
Proof.
  destruct s as [|a s]; cbn [Re.span]; [lia|].
  destruct (Re.cls_ok c a); [|lia]. discriminate.
Qed.

Lemma exec_group_span {R} i c s caps (k : string -> gmap nat string -> option R) :
  0 < Re.span c s ->
  is_Some (k (Str.drop (Re.span c s) s) (<[i := Str.take (Re.span c s) s]> caps)) ->
  Re.exec (Re.Group i (Re.Plus c)) s caps k
  = k (Str.drop (Re.span c s) s) (<[i := Str.take (Re.span c s) s]> caps).
Proof.
  intros Hn Hk. rewrite <- (take_drop_s (Re.span c s) s) at 1.
  apply exec_group_plus.
  - by apply take_span_nonempty.
  - by apply all_cls_take.
  - apply span_drop_span.
  - exact Hk.
Qed.

Lemma exec_tree_part_tail tail caps :
  Re.exec tree_part tail caps k0
  = match tree_match tail with
    | Some (b, sp) => Some (<[4 := sp]> (<[3 := b]> caps))
    | None => None
    end.
Proof.
  unfold tree_part, tree_match. rewrite exec_seq. cbn [Re.exec].
  destruct (Str.strip_prefix "/tree/" tail) as [t|]; [|reflexivity].
  set (n := Re.span Re.NotSlash t).
  change (Re.try_down n t ?k) with (Re.try_down (Re.span Re.NotSlash t) t k).
  destruct (Str.strip_prefix "/" (Str.drop n t)) as [u|] eqn:Hu.
  - destruct (Nat.ltb_spec 0 n) as [Hn|Hn]; cbn [andb].
    + destruct (Nat.ltb_spec 0 (Re.span Re.Dot u)) as [Hm|Hm].
      * (* both runs are there *)
        rewrite try_down_first; fold n; [| lia |]; rewrite Hu.
        -- rewrite length_drop.
           replace (String.length t - (String.length t - n)) with n
             by (pose proof (span_le Re.NotSlash t); lia).
           change (Re.try_down (Re.span Re.Dot u) u ?k)
             with (Re.exec (Re.Group 4 (Re.Plus Re.Dot)) u
                     (<[3 := Str.take n t]> caps) k0).
           rewrite exec_group_span; unfold k0; eauto.
        -- change (Re.try_down (Re.span Re.Dot u) u ?k)
             with (Re.exec (Re.Group 4 (Re.Plus Re.Dot)) u
                     (<[3 := Str.take (String.length t
                                       - String.length (Str.drop n t)) t]> caps) k0).
           rewrite exec_group_span; unfold k0; eauto.
      * (* nothing after the slash *)
        apply try_down_None. intros i Hi. fold n in Hi.
        destruct (decide (i = n)) as [->|Hne].
        -- rewrite Hu. replace (Re.span Re.Dot u) with 0 by lia. reflexivity.
        -- rewrite no_slash_inside; [reflexivity|]. fold n. lia.
    + assert (Hn0 : Re.span Re.NotSlash t = 0) by (fold n; lia).
      rewrite Hn0. reflexivity.
  - apply try_down_None. intros i Hi. fold n in Hi.
    destruct (decide (i = n)) as [->|Hne]; [by rewrite Hu|].
    rewrite no_slash_inside; [reflexivity|]. fold n. lia.
Qed.

End RepoTail.

Section RepoTailParse.

Let k0 : string -> gmap nat string -> option (gmap nat string) :=
  fun _ caps => Some caps.

Let tree_part : Re.regex :=
  Re.Seq (Re.Lit "/tree/")
    (Re.Seq (Re.Group 3 (Re.Plus Re.NotSlash))
       (Re.Seq (Re.Lit "/") (Re.Group 4 (Re.Plus Re.Dot)))).

Lemma span_tail tail :
  tail = "" \/ Str.startswith "/" tail = true -> Re.span Re.NotSlash tail = 0.
Proof.
  intros [->|H]; [reflexivity|].
  destruct tail as [|a tail]; [reflexivity|].
  cbn [Str.startswith] in H. apply andb_true_iff in H as [H _].
  apply Ascii.eqb_eq in H. subst a. reflexivity.
Qed.

Lemma match_here_tail o r tail :
  o <> "" -> all_cls Re.NotSlash o -> r <> "" -> all_cls Re.NotSlash r ->
  tail = "" \/ Str.startswith "/" tail = true ->
  Re.match_here repo_path_re ("github.com/" +:+ o +:+ "/" +:+ r +:+ tail)
  = Some match tree_match tail with
         | Some (b, sp) => <[4 := sp]> (<[3 := b]> (<[2 := r]> (<[1 := o]> ∅)))
         | None => <[2 := r]> (<[1 := o]> ∅)
         end.
Proof.
  intros Ho Hoc Hr Hrc Htail. unfold Re.match_here, repo_path_re.
  assert (Hopt : forall caps,
             Re.exec (Re.Opt tree_part) tail caps k0
             = Some match tree_match tail with
                    | Some (b, sp) => <[4 := sp]> (<[3 := b]> caps)
                    | None => caps
                    end).
  { intros caps.
    change (Re.exec (Re.Opt tree_part) tail caps k0)
      with (match Re.exec tree_part tail caps k0 with
            | Some x => Some x
            | None => k0 tail caps
            end).
    unfold tree_part, k0. rewrite (exec_tree_part_tail tail caps).
    destruct (tree_match tail) as [[b sp]|]; reflexivity. }
  assert (H2 : forall caps,
             Re.exec (Re.Seq (Re.Group 2 (Re.Plus Re.NotSlash)) (Re.Opt tree_part))
               (r +:+ tail) caps k0
             = Some match tree_match tail with
                    | Some (b, sp) => <[4 := sp]> (<[3 := b]> (<[2 := r]> caps))
                    | None => <[2 := r]> caps
                    end).
  { intros caps. rewrite exec_seq, exec_group_plus; try assumption.
    - apply Hopt.
    - by apply span_tail.
    - rewrite Hopt. eauto. }
  rewrite exec_seq, exec_lit_app, exec_seq.
  rewrite exec_group_plus; try assumption; try reflexivity;
    rewrite exec_seq, (exec_lit_app "/"); fold tree_part k0; rewrite H2; eauto.
Qed.

End RepoTailParse.

Lemma search_http s :
  Re.search repo_path_re ("http://" +:+ s) = Re.search repo_path_re s.
Proof.
  cbn [String.append].
  repeat (rewrite search_skip; [|apply match_here_head; discriminate]).
  reflexivity.
Qed.

Lemma tree_match_nonempty tail b sp :
  tree_match tail = Some (b, sp) -> b <> "" /\ sp <> "".
Proof.
  unfold tree_match.
  destruct (Str.strip_prefix "/tree/" tail) as [t|]; [|discriminate].
  destruct (Str.strip_prefix "/" _) as [u|]; [|discriminate].
  destruct (Nat.ltb_spec 0 (Re.span Re.NotSlash t)); [|discriminate].
  destruct (Nat.ltb_spec 0 (Re.span Re.Dot u)); [|discriminate].
  intros [= <- <-]. split; by apply take_span_nonempty.
Qed.

Lemma parse_with_tail scheme o r tail :
  scheme = "https://" \/ scheme = "http://" ->
  o <> "" -> Str.contains "/" o = false ->
  r <> "" -> Str.contains "/" r = false ->
  tail = "" \/ Str.startswith "/" tail = true ->
  parse_repo_url (scheme +:+ "github.com/" +:+ o +:+ "/" +:+ r +:+ tail)
  = Some {| owner := o; repo_name := r;
            branch := (tree_suffix tail).1; subdir_path := (tree_suffix tail).2 |}.
Proof.
  intros Hs Ho Hoc Hr Hrc Htail.
  apply no_slash_all_cls in Hoc, Hrc.
  unfold parse_repo_url.
  assert (Hsearch : Re.search repo_path_re
                      (scheme +:+ "github.com/" +:+ o +:+ "/" +:+ r +:+ tail)
                    = Re.search repo_path_re
                        ("github.com/" +:+ o +:+ "/" +:+ r +:+ tail)).
  { destruct Hs as [-> | ->]; [apply search_https|apply search_http]. }
  rewrite Hsearch.
  rewrite (search_here _ _ _ (match_here_tail o r tail Ho Hoc Hr Hrc Htail)).
  unfold tree_suffix.
  destruct (tree_match tail) as [[b sp]|] eqn:Hm; unfold group, group_or;
    simplify_map_eq; [|reflexivity].
  apply tree_match_nonempty in Hm as [Hb Hsp].
  destruct (String.eqb_spec b ""); [contradiction|].
  destruct (String.eqb_spec sp ""); [contradiction|]. reflexivity.
Qed.

(** X7: for a URL that starts with [http://github.com/] or
    [https://github.com/], owner and repository are the first two segments,
    whatever follows the repository; branch and subpath are taken from what
    follows only when it reads [/tree/], a branch, a slash and at least one
    more character, and are [main] and empty in every other case. *)
Theorem parse_github_url_any_tail scheme o r tail :
  scheme = "https://" \/ scheme = "http://" ->
  o <> "" -> Str.contains "/" o = false ->
  r <> "" -> Str.contains "/" r = false ->
  tail = "" \/ Str.startswith "/" tail = true ->
  parse_repo_url (scheme +:+ "github.com/" +:+ o +:+ "/" +:+ r +:+ tail)
  = Some {| owner := o; repo_name := r;
            branch := (tree_suffix tail).1; subdir_path := (tree_suffix tail).2 |}.
Proof. exact (parse_with_tail scheme o r tail). Qed.

Lemma parse_github_url_any_tail_witness :
  parse_repo_url "http://github.com/acme/widgets/blob/main/README.md"
  = Some {| owner := "acme"; repo_name := "widgets";
            branch := "main"; subdir_path := "" |}.
Proof.
  apply (parse_github_url_any_tail "http://" "acme" "widgets" "/blob/main/README.md");
    first [discriminate | by right | vm_compute; reflexivity].
Defined.

Lemma tree_match_after_branch b y :
  all_cls Re.NotSlash b -> Re.span Re.NotSlash y = 0 ->
  tree_match ("/tree/" +:+ b +:+ y)
  = match Str.strip_prefix "/" y with
    | Some u =>
        if (0 <? String.length b)%nat && (0 <? Re.span Re.Dot u)%nat
        then Some (b, Str.take (Re.span Re.Dot u) u)
        else None
    | None => None
    end.
Proof.
  intros Hb Hy. unfold tree_match. rewrite strip_prefix_app.
  rewrite (span_app _ _ _ Hb), Hy, Nat.add_0_r, drop_app_length, take_app_length.
  reflexivity.
Qed.

(** X8: a URL that names a branch and no subpath,
    [https://github.com/{owner}/{repo}/tree/{branch}] with or without a
    closing slash, parses to the branch [main]: the branch in the URL is not
    used. *)
Theorem branch_without_subpath_is_main o r b :
  o <> "" -> Str.contains "/" o = false ->
  r <> "" -> Str.contains "/" r = false ->
  Str.contains "/" b = false ->
  parse_repo_url ("https://github.com/" +:+ o +:+ "/" +:+ r +:+ "/tree/" +:+ b)
  = Some {| owner := o; repo_name := r; branch := "main"; subdir_path := "" |}
  /\ parse_repo_url
       ("https://github.com/" +:+ o +:+ "/" +:+ r +:+ "/tree/" +:+ b +:+ "/")
     = Some {| owner := o; repo_name := r; branch := "main"; subdir_path := "" |}.
Proof.
  intros Ho Hoc Hr Hrc Hbc.
  change "https://github.com/" with ("https://" +:+ "github.com/").
  rewrite !app_assoc_s.
  apply no_slash_all_cls in Hbc.
  split.
  - rewrite <- (app_nil_r_s b).
    rewrite (parse_with_tail "https://" o r ("/tree/" +:+ b +:+ "")); auto.
    unfold tree_suffix. rewrite (tree_match_after_branch b "" Hbc eq_refl).
    reflexivity.
  - rewrite (parse_with_tail "https://" o r ("/tree/" +:+ b +:+ "/")); auto.
    unfold tree_suffix. rewrite (tree_match_after_branch b "/" Hbc eq_refl).
    cbn [Str.strip_prefix Re.span]. rewrite Ascii.eqb_refl.
    change (0 <? 0)%nat with false. rewrite andb_false_r. reflexivity.
Qed.

Lemma branch_without_subpath_is_main_witness :
  parse_repo_url "https://github.com/acme/widgets/tree/dev"
  = Some {| owner := "acme"; repo_name := "widgets";
            branch := "main"; subdir_path := "" |}
  /\ parse_repo_url "https://github.com/acme/widgets/tree/dev/"
     = Some {| owner := "acme"; repo_name := "widgets";
               branch := "main"; subdir_path := "" |}.
Proof.
  apply (branch_without_subpath_is_main "acme" "widgets" "dev");
    first [discriminate | vm_compute; reflexivity].
Defined.


(** ** The settings *)

Lemma default_settings_lookup k :
  Config.default_settings !! k
  = if String.eqb k "base_repo_path" then Some (JStr "")
    else if String.eqb k "filter_mode" then Some (JStr "none")
    else None.
Proof.
  unfold Config.default_settings.
  destruct (String.eqb_spec k "base_repo_path") as [->|H1];
    [by rewrite lookup_insert_eq|].
  rewrite lookup_insert_ne by done.
  destruct (String.eqb_spec k "filter_mode") as [->|H2];
    [by rewrite lookup_insert_eq|].
  by rewrite lookup_insert_ne.
Qed.

Lemma union_defaults (m : gmap string jvalue) :
  is_Some (m !! "base_repo_path") -> is_Some (m !! "filter_mode") ->
  m ∪ Config.default_settings = m.
Proof.
  intros [v1 H1] [v2 H2]. apply map_eq. intros k. rewrite lookup_union.
  destruct (m !! k) as [v|] eqn:Hk.
  - by destruct (Config.default_settings !! k).
  - rewrite default_settings_lookup.
    destruct (String.eqb_spec k "base_repo_path") as [->|]; [congruence|].
    destruct (String.eqb_spec k "filter_mode") as [->|]; [congruence|]. done.
Qed.

(** X9: saving and starting again gives the settings back: when the file
    can be written, [save_settings] returns [True] and a [Config()] made from
    the disk it leaves holds exactly the settings that were saved. *)
Theorem save_then_load c d :
  writable d = true ->
  Config.has_defaults c ->
  (Config.save_settings c d).1.1 = true
  /\ Config.settings (Config.init (Config.save_settings c d).1.2).1
     = Config.settings c.
Proof.
  intros Hw [H1 H2]. unfold Config.save_settings. rewrite Hw. cbn.
  split; [reflexivity|]. by apply union_defaults.
Qed.

Lemma save_then_load_witness :
  let c := Config.set (Config.init {| config_file := None; writable := true |}).1
             "filter_mode" (JStr "light_filter") in
  let d := {| config_file := Some Invalid; writable := true |} in
  (Config.save_settings c d).1.1 = true
  /\ Config.settings (Config.init (Config.save_settings c d).1.2).1
     = Config.settings c.
Proof.
  cbv zeta. apply save_then_load; [reflexivity|].
  split; vm_compute; eauto.
Defined.

(** X10: every configuration the program can reach has both default keys:
    they are there after [Config()] whatever the file holds, and [set],
    [load_settings] and [reset] keep them; so [get] of these keys never falls
    back to its default argument. *)
Theorem defaults_always_present :
  (forall d, Config.has_defaults (Config.init d).1)
  /\ (forall c d, Config.has_defaults c -> Config.has_defaults (Config.load_settings c d).1)
  /\ (forall c key value, Config.has_defaults c ->
                          Config.has_defaults (Config.set c key value))
  /\ (forall c d, Config.has_defaults (Config.reset c d).1.1)
  /\ (forall c key default,
         Config.has_defaults c -> key = "base_repo_path" \/ key = "filter_mode" ->
         Config.settings c !! key = Some (Config.get c key default)).
Proof.
  assert (Hdef : Config.has_defaults {| Config.settings := Config.default_settings |}).
  { split; cbn; rewrite default_settings_lookup; cbn; eauto. }
  assert (Hload : forall c d, Config.has_defaults c ->
                              Config.has_defaults (Config.load_settings c d).1).
  { intros c d [H1 H2]. unfold Config.load_settings.
    destruct (config_file d) as [[m|]|]; cbn; try (by split).
    destruct H1 as [v1 H1], H2 as [v2 H2].
    split; cbn; rewrite lookup_union.
    - rewrite H1. destruct (m !! "base_repo_path"); cbn; eauto.
    - rewrite H2. destruct (m !! "filter_mode"); cbn; eauto. }
  repeat split.
  - apply (Hload _ d Hdef).
  - apply (Hload _ d Hdef).
  - by apply Hload.
  - by apply Hload.
  - destruct H as [[v Hv] _]. cbn. rewrite lookup_insert.
    destruct (decide (key = "base_repo_path")); eauto.
  - destruct H as [_ [v Hv]]. cbn. rewrite lookup_insert.
    destruct (decide (key = "filter_mode")); eauto.
  - apply Hdef.
  - apply Hdef.
  - intros c key default [[v1 H1] [v2 H2]] [-> | ->]; unfold Config.get.
    + by rewrite H1.
    + by rewrite H2.
Qed.


(** X12: [reset] puts the defaults back in memory in every case; on disk
    only when the file can be written.  When it cannot, the file is left as
    it was and nothing tells the caller, so the next [Config()] loads the old
    settings again. *)
Theorem reset_restores_defaults c d :
  Config.settings (Config.reset c d).1.1 = Config.default_settings
  /\ (writable d = true ->
      Config.settings (Config.init (Config.reset c d).1.2).1 = Config.default_settings)
  /\ (writable d = false ->
      (Config.reset c d).1.2 = d /\ Config.init (Config.reset c d).1.2 = Config.init d).
Proof.
  unfold Config.reset, Config.save_settings. split; [reflexivity|]. split.
  - intros ->. cbn. apply union_defaults; rewrite default_settings_lookup; cbn; eauto.
  - intros ->. cbn. by split.
Qed.

(** ** The dialogs *)

Lemma mode_of_valid r : In (mode_of r) filter_modes.
Proof. destruct r; cbn; tauto. Qed.

Lemma mode_of_radio_of m : In m filter_modes -> mode_of (radio_of (JStr m)) = m.
Proof.
  cbn. intros [<-|[<-|[<-|[<-|[]]]]]; reflexivity.
Qed.

Lemma radio_of_unknown v :
  (forall m, In m filter_modes -> v <> JStr m) -> radio_of v = FilterNone.
Proof.
  intros H. destruct v as [m| | |]; try reflexivity. cbn [radio_of].
  destruct (String.eqb_spec m "none"); [reflexivity|].
  destruct (String.eqb_spec m "markdown_only") as [->|];
    [exfalso; apply (H "markdown_only"); cbn; tauto|].
  destruct (String.eqb_spec m "exclude_code") as [->|];
    [exfalso; apply (H "exclude_code"); cbn; tauto|].
  destruct (String.eqb_spec m "light_filter") as [->|];
    [exfalso; apply (H "light_filter"); cbn; tauto|].
  reflexivity.
Qed.

(** X13: the settings dialog stores one of the four modes whatever was
    stored before.  Opened and saved without a change, it leaves a stored
    mode that is one of the four as it is, stores the path it showed, and
    touches no other key; the settings object is changed in memory even when
    the file cannot be written and the dialog stays open. *)
Theorem settings_dialog_save :
  (forall dlg c d,
      exists m, Config.settings (dialog_save dlg c d).1.1 !! "filter_mode" = Some (JStr m)
                /\ In m filter_modes)
  /\ (forall c d dlg,
         dialog_init c = Some dlg ->
         let r := dialog_save dlg c d in
         (forall m, In m filter_modes ->
                    Config.settings c !! "filter_mode" = Some (JStr m) ->
                    Config.settings r.1.1 !! "filter_mode" = Some (JStr m))
         /\ Config.settings r.1.1 !! "base_repo_path"
            = Some (Config.get c "base_repo_path" (JStr ""))
         /\ (forall k, k <> "filter_mode" -> k <> "base_repo_path" ->
                       Config.settings r.1.1 !! k = Config.settings c !! k)
         /\ (writable d = true ->
             r.2 = true /\ config_file r.1.2 = Some (Object (Config.settings r.1.1)))
         /\ (writable d = false -> r.2 = false /\ r.1.2 = d)).
Proof.
  split.
  - intros dlg c d. exists (mode_of (checked dlg)). split; [|apply mode_of_valid].
    cbn. by rewrite lookup_insert_eq.
  - intros c d dlg Hinit. cbv zeta. unfold dialog_init in Hinit.
    destruct (Config.get c "base_repo_path" (JStr "")) as [s| | |] eqn:Hpath;
      try discriminate.
    injection Hinit as <-. cbn [dialog_save path_input checked fst snd].
    repeat split.
    + intros m Hm Hc. cbn. rewrite lookup_insert_eq.
      unfold Config.get. rewrite Hc. by rewrite (mode_of_radio_of m Hm).
    + cbn. rewrite lookup_insert_ne by done. by rewrite lookup_insert_eq.
    + intros k Hk1 Hk2. cbn. by rewrite !lookup_insert_ne.
    + unfold Config.save_settings. by rewrite H.
    + unfold Config.save_settings. by rewrite H.
    + unfold Config.save_settings. by rewrite H.
    + unfold Config.save_settings. by rewrite H.
Qed.

(** X14: the main window starts from one of the four modes: the stored mode
    when it is one of them, and [none] for every other stored value, be it an
    unknown name or not a string. *)
Theorem combo_default_is_a_mode c :
  In (combo_default c) filter_modes
  /\ (forall m, In m filter_modes ->
                Config.get c "filter_mode" (JStr "none") = JStr m ->
                combo_default c = m)
  /\ ((forall m, In m filter_modes ->
                 Config.get c "filter_mode" (JStr "none") <> JStr m) ->
      combo_default c = "none").
Proof.
  unfold combo_default. split; [apply mode_of_valid|]. split.
  - intros m Hm ->. by apply mode_of_radio_of.
  - intros H. by rewrite (radio_of_unknown _ H).
Qed.

(** X15: [start_grabbing] creates the thread exactly when the URL field,
    stripped, is not empty and starts with [https://github.com/] or
    [http://github.com/], and the path field, stripped, is not empty and
    names a directory; the thread then gets the stripped texts.  It says
    nothing on whether the rest of the URL can be parsed:
    [https://github.com/acme] goes through and fails in [run]. *)
Theorem start_grabbing_guard repo_input path_text filter_mode isdir :
  (forall u t m,
      start_grabbing repo_input path_text filter_mode isdir = Thread u t m <->
      u = strip repo_input /\ t = strip path_text /\ m = filter_mode
      /\ u <> "" /\ t <> "" /\ isdir t = true
      /\ exists rest, u = "https://github.com/" +:+ rest
                      \/ u = "http://github.com/" +:+ rest)
  /\ (exists t m,
         start_grabbing "  https://github.com/acme " "/home/u/proj" "none"
           (fun _ => true) = Thread "https://github.com/acme" t m
         /\ parse_repo_url "https://github.com/acme" = None).
Proof.
  split.
  - intros u t m. unfold start_grabbing.
    destruct (String.eqb_spec (strip repo_input) "") as [He|He].
    { split; [discriminate|]. intros (-> & _ & _ & H & _). contradiction. }
    destruct (String.eqb_spec (strip path_text) "") as [Hp|Hp].
    { split; [discriminate|]. intros (_ & -> & _ & _ & H & _). contradiction. }
    destruct (isdir (strip path_text)) eqn:Hd; cbn [negb].
    2: { split; [discriminate|]. intros (_ & -> & _ & _ & _ & H & _). congruence. }
    destruct (start_grabbing_url_ok (strip repo_input)) eqn:Hu; cbn [negb].
    + split.
      * intros [= <- <- <-]. repeat split; try assumption.
        unfold start_grabbing_url_ok in Hu. apply orb_true_iff in Hu as [H|H];
          apply startswith_true in H as [rest H]; exists rest; eauto.
      * intros (-> & -> & -> & _). reflexivity.
    + split; [discriminate|].
      intros (-> & _ & _ & _ & _ & _ & rest & H). exfalso.
      unfold start_grabbing_url_ok in Hu. apply orb_false_iff in Hu as [H1 H2].
      destruct H as [H|H]; rewrite H in *; rewrite startswith_app in *; discriminate.
  - eexists _, _. split; vm_compute; reflexivity.
Qed.


(** ** What [filter_files] leaves in the destination *)

Section FilterContents.

Variable W : list walk_item.
Variable filter_mode : string.
Hypothesis Hsep : separated W.
Hypothesis Hfun :
  forall w w' f f', w ∈ W -> w' ∈ W -> f ∈ w_files w -> f' ∈ w_files w' ->
                    w_rel w ++ [f.1] = w_rel w' ++ [f'.1] -> f.2 = f'.2.

Lemma makedirs_lookup w d :
  dest_inv W d -> w ∈ W ->
  exists d', makedirs true (w_rel w) d = Some d'
             /\ forall q, d' !! q = if decide (q `prefix_of` w_rel w) then Some DDir
                                    else d !! q.
Proof.
  intros [Hd Hf] Hw. apply makedirs_exist_ok.
  intros q Hq. destruct (d !! q) as [[data|]|] eqn:Hdq; try reflexivity.
  destruct (Hf _ _ Hdq) as (w1 & f & Hw1 & Hf1 & ->).
  exfalso. exact (Hsep w1 w f Hw1 Hw Hf1 Hq).
Qed.

Lemma makedirs_keeps_files w d d' P :
  dest_inv W d -> w ∈ W -> makedirs true (w_rel w) d = Some d' ->
  files_sound filter_mode W d -> files_done filter_mode W P d ->
  files_sound filter_mode W d' /\ files_done filter_mode W P d'.
Proof.
  intros Hinv Hw Hmk Hs Hdone.
  destruct (makedirs_lookup w d Hinv Hw) as (d1 & Hmk1 & Hlook).
  rewrite Hmk in Hmk1. injection Hmk1 as <-. split.
  - intros q data. rewrite Hlook.
    destruct (decide (q `prefix_of` w_rel w)); [discriminate|]. apply Hs.
  - intros w1 f data Hin Hw1 Hgood. rewrite Hlook.
    destruct (decide ((w_rel w1 ++ [f.1]) `prefix_of` w_rel w)) as [Hpre|];
      [|by apply (Hdone w1 f data)].
    exfalso. destruct Hgood as [Hf _]. exact (Hsep w1 w f Hw1 Hw Hf Hpre).
Qed.

Lemma copy_file_lookup w f st src tgt :
  dest_inv W (dest st) -> w ∈ W -> f ∈ w_files w ->
  forall q,
    dest (copy_file src tgt (w_rel w) f.1 f.2 st) !! q
    = if decide (q = w_rel w ++ [f.1]) then
        match f.2 with
        | File data true => Some (DFile data)
        | _ => dest st !! q
        end
      else if decide (q `prefix_of` w_rel w) then Some DDir
      else dest st !! q.
Proof.
  intros Hinv Hw Hf q. unfold copy_file.
  destruct (makedirs_lookup w (dest st) Hinv Hw) as (d1 & Hmk & Hlook).
  destruct (inv_makedirs W Hsep w (dest st) Hinv Hw) as (d1' & Hmk' & Hinv1 & Hdir & _).
  rewrite Hmk in Hmk'. injection Hmk' as <-. rewrite Hmk.
  destruct f as [name n]. cbn [fst snd] in *.
  assert (Hnot : ¬ (w_rel w ++ [name]) `prefix_of` w_rel w) by apply prefix_snoc_not.
  assert (Hfree : d1 !! (w_rel w ++ [name]) <> Some DDir).
  { intros Hk. destruct Hinv1 as [Hd _]. destruct (Hd _ Hk) as [Hnil | (w2 & Hw2 & Hpre)].
    - by destruct (w_rel w).
    - exact (Hsep w w2 (name, n) Hw Hw2 Hf Hpre). }
  assert (Hplain : d1 !! q = if decide (q = w_rel w ++ [name]) then dest st !! q
                             else if decide (q `prefix_of` w_rel w) then Some DDir
                             else dest st !! q).
  { rewrite Hlook. destruct (decide (q = w_rel w ++ [name])) as [->|]; [|done].
    by rewrite decide_False. }
  destruct n as [data [|] | | es]; cbn [dest]; try exact Hplain.
  unfold write_file. rewrite Hdir.
    assert (Hw_ok : match d1 !! (w_rel w ++ [name]) with
                    | Some DDir => None
                    | _ => Some (<[w_rel w ++ [name] := DFile data]> d1)
                    end = Some (<[w_rel w ++ [name] := DFile data]> d1)).
    { destruct (d1 !! (w_rel w ++ [name])) as [[?|]|]; congruence. }
    rewrite Hw_ok. cbn [dest]. rewrite lookup_insert.
    destruct (decide (w_rel w ++ [name] = q)) as [<-|Hne].
    + by rewrite decide_True.
    + rewrite decide_False by congruence. rewrite Hlook. reflexivity.
Qed.

Lemma filter_file_inv w f st tp :
  dest_inv W (dest st) -> w ∈ W -> f ∈ w_files w ->
  dest_inv W (dest (filter_file filter_mode w tp st f)).
Proof.
  intros Hinv Hw Hf. unfold filter_file.
  destruct (should_copy filter_mode f.1 (path_join (w_root w) f.1)); [|exact Hinv].
  by destruct (copy_file_spec W Hsep w f st (path_join (w_root w) f.1)
                 (path_join tp f.1) Hinv Hw Hf) as (H & _).
Qed.

Lemma filter_file_contents w f st P tp :
  dest_inv W (dest st) -> w ∈ W -> f ∈ w_files w ->
  files_sound filter_mode W (dest st) -> files_done filter_mode W P (dest st) ->
  files_sound filter_mode W (dest (filter_file filter_mode w tp st f))
  /\ files_done filter_mode W (P ++ [(w, f)]) (dest (filter_file filter_mode w tp st f)).
Proof.
  intros Hinv Hw Hf Hs Hdone. unfold filter_file.
  destruct (should_copy filter_mode f.1 (path_join (w_root w) f.1)) eqn:Hpass.
  - pose proof (copy_file_lookup w f st (path_join (w_root w) f.1)
                  (path_join tp f.1) Hinv Hw Hf) as L.
    split.
    + intros q data. rewrite L.
      destruct (decide (q = w_rel w ++ [f.1])) as [->|Hq].
      * destruct (f.2) as [data0 [|] | | es] eqn:Hf2; try apply Hs.
        intros [= <-]. exists w, f. repeat split; assumption.
      * destruct (decide (q `prefix_of` w_rel w)); [discriminate|apply Hs].
    + intros w1 f1 data Hin Hw1 Hgood. rewrite L.
      destruct (decide (w_rel w1 ++ [f1.1] = w_rel w ++ [f.1])) as [Heq|Hne].
      * destruct Hgood as (Hf1 & Hdata & _).
        rewrite <- (Hfun w1 w f1 f Hw1 Hw Hf1 Hf Heq), Hdata. reflexivity.
      * destruct (decide ((w_rel w1 ++ [f1.1]) `prefix_of` w_rel w)) as [Hpre|].
        { exfalso. destruct Hgood as [Hf1 _]. exact (Hsep w1 w f1 Hw1 Hw Hf1 Hpre). }
        apply elem_of_app in Hin as [Hin|Hin]; [by apply (Hdone w1 f1 data)|].
        apply list_elem_of_singleton in Hin. injection Hin as -> ->. contradiction.
  - split; [exact Hs|].
    intros w1 f1 data Hin Hw1 Hgood.
    apply elem_of_app in Hin as [Hin|Hin]; [by apply (Hdone w1 f1 data)|].
    apply list_elem_of_singleton in Hin. injection Hin as -> ->.
    destruct Hgood as (_ & _ & Hp). unfold passes in Hp. congruence.
Qed.

Lemma files_of_dir_contents w tp fs : forall st P,
  dest_inv W (dest st) -> w ∈ W -> (forall f, f ∈ fs -> f ∈ w_files w) ->
  files_sound filter_mode W (dest st) -> files_done filter_mode W P (dest st) ->
  let st' := foldl (filter_file filter_mode w tp) st fs in
  dest_inv W (dest st')
  /\ files_sound filter_mode W (dest st')
  /\ files_done filter_mode W (P ++ map (pair w) fs) (dest st').
Proof.
  induction fs as [|f fs IH]; intros st P Hinv Hw Hfs Hs Hdone; cbv zeta.
  - cbn [foldl map]. by rewrite app_nil_r.
  - cbn [foldl map].
    assert (Hf : f ∈ w_files w) by (apply Hfs; left).
    destruct (filter_file_contents w f st P tp Hinv Hw Hf Hs Hdone) as [Hs1 Hd1].
    pose proof (filter_file_inv w f st tp Hinv Hw Hf) as Hinv1.
    destruct (IH _ (P ++ [(w, f)]) Hinv1 Hw) as (Hinv2 & Hs2 & Hd2); try assumption.
    { intros f' Hf'. apply Hfs. by right. }
    rewrite <- app_assoc in Hd2. split; [exact Hinv2|]. split; [exact Hs2|exact Hd2].
Qed.

Lemma filter_dir_contents target_dir st w P st' :
  dest_inv W (dest st) -> w ∈ W ->
  files_sound filter_mode W (dest st) -> files_done filter_mode W P (dest st) ->
  filter_dir target_dir filter_mode st w = Done st' ->
  dest_inv W (dest st')
  /\ files_sound filter_mode W (dest st')
  /\ files_done filter_mode W (P ++ map (pair w) (w_files w)) (dest st').
Proof.
  intros Hinv Hw Hs Hdone. unfold filter_dir.
  destruct (inv_makedirs W Hsep w (dest st) Hinv Hw) as (d1 & Hmk & Hinv1 & _).
  destruct (makedirs_keeps_files w (dest st) d1 P Hinv Hw Hmk Hs Hdone) as [Hs1 Hd1].
  rewrite Hmk. intros [= <-].
  apply files_of_dir_contents; auto.
Qed.

Lemma filter_loop_contents target_dir ws : forall st P,
  dest_inv W (dest st) -> (forall w, w ∈ ws -> w ∈ W) ->
  files_sound filter_mode W (dest st) -> files_done filter_mode W P (dest st) ->
  exists st',
    filter_loop target_dir filter_mode ws st = Done st'
    /\ dest_inv W (dest st')
    /\ files_sound filter_mode W (dest st')
    /\ files_done filter_mode W
         (P ++ flat_map (fun w => map (pair w) (w_files w)) ws) (dest st').
Proof.
  induction ws as [|w ws IH]; intros st P Hinv Hws Hs Hdone.
  - exists st. cbn [filter_loop flat_map]. by rewrite app_nil_r.
  - cbn [filter_loop flat_map].
    assert (Hw : w ∈ W) by (apply Hws; left).
    destruct (filter_dir_spec W Hsep target_dir filter_mode st w Hinv Hw)
      as (st1 & Hrun1 & _).
    destruct (filter_dir_contents target_dir st w P st1 Hinv Hw Hs Hdone Hrun1)
      as (Hinv1 & Hs1 & Hd1).
    rewrite Hrun1.
    destruct (IH st1 (P ++ map (pair w) (w_files w)) Hinv1) as (st2 & Hrun2 & H2);
      try assumption.
    { intros w' Hw'. apply Hws. by right. }
    exists st2. split; [exact Hrun2|]. by rewrite app_assoc.
Qed.

End FilterContents.

Lemma lookup_node_app p : forall n p',
  lookup_node n (p ++ p')
  = match lookup_node n p with
    | Some c => lookup_node c p'
    | None => None
    end.
Proof.
  induction p as [|x p IH]; intros n p'; [reflexivity|].
  cbn [app lookup_node]. destruct n as [| |es]; try reflexivity.
  destruct (find_entry x es); [apply IH|reflexivity].
Qed.

(** Every walked directory is a directory of the tree, and its files are the
    entries of that directory that are not directories. *)
Lemma walk_dir_lookup n : forall root rel w,
  well_formed n = true -> w ∈ walk root rel n ->
  exists p es, w_rel w = rel ++ p /\ lookup_node n p = Some (Dir es)
               /\ w_files w = non_dirs es /\ distinct (map fst es) = true.
Proof.
  induction n as [data readable| |es IH] using node_ind; intros root rel w Hwf Hw;
    try (by apply elem_of_nil in Hw).
  pose proof (well_formed_Dir es Hwf) as [Hd Hwfs]. rewrite Forall_forall in IH.
  apply elem_of_walk_Dir in Hw as [-> | (name & c & Hin & Hw)].
  - exists [], es. cbn. by rewrite app_nil_r.
  - destruct (IH _ Hin _ _ _ (Hwfs _ Hin) Hw) as (p & es' & Hrel & Hlook & Hfiles & Hd').
    exists (name :: p), es'. cbn [lookup_node].
    rewrite (find_entry_distinct es name c Hd Hin).
    rewrite Hrel, <- app_assoc. auto.
Qed.

Lemma walk_file_lookup source root w f :
  well_formed source = true -> w ∈ walk root [] source -> f ∈ w_files w ->
  lookup_node source (w_rel w ++ [f.1]) = Some f.2.
Proof.
  intros Hwf Hw Hf.
  destruct (walk_dir_lookup source root [] w Hwf Hw) as (p & es & Hrel & Hlook & Hfiles & Hd).
  cbn [app] in Hrel. rewrite Hrel, lookup_node_app, Hlook. cbn [lookup_node].
  rewrite Hfiles in Hf. apply elem_of_non_dirs in Hf as [Hf _].
  destruct f as [name c]. cbn [fst snd].
  by rewrite (find_entry_distinct es name c Hd Hf).
Qed.

Lemma filter_files_contents source_dir source target_dir filter_mode :
  well_formed source = true ->
  exists st,
    filter_files source_dir source target_dir filter_mode fresh_reference = Done st
    /\ dest_inv (walk source_dir [] source) (dest st)
    /\ files_sound filter_mode (walk source_dir [] source) (dest st)
    /\ (forall w f data, w ∈ walk source_dir [] source ->
                         good_file filter_mode w f data ->
                         dest st !! (w_rel w ++ [f.1]) = Some (DFile data))
    /\ (forall w, w ∈ walk source_dir [] source -> dest st !! w_rel w = Some DDir).
Proof.
  intros Hwf. set (W := walk source_dir [] source).
  pose proof (walk_separated source source_dir [] Hwf) as Hsep. fold W in Hsep.
  assert (Hfun : forall w w' f f', w ∈ W -> w' ∈ W -> f ∈ w_files w -> f' ∈ w_files w' ->
                                   w_rel w ++ [f.1] = w_rel w' ++ [f'.1] -> f.2 = f'.2).
  { intros w w' f f' Hw Hw' Hf Hf' Heq.
    pose proof (walk_file_lookup source source_dir w f Hwf Hw Hf) as H1.
    pose proof (walk_file_lookup source source_dir w' f' Hwf Hw' Hf') as H2.
    rewrite Heq in H1. congruence. }
  destruct (filter_files_spec source_dir source target_dir filter_mode Hwf)
    as (st & Hrun & _ & _ & Hdirs).
  destruct (filter_loop_contents W filter_mode Hsep Hfun target_dir W
              {| dest := fresh_reference; copied_files := []; printed := [] |} [])
    as (st' & Hrun' & Hinv & Hs & Hdone).
  - apply fresh_reference_inv.
  - auto.
  - intros q data Hq. cbn [dest] in Hq. unfold fresh_reference in Hq.
    apply lookup_singleton_Some in Hq as [_ [=]].
  - intros w f data Hin. by apply elem_of_nil in Hin.
  - unfold filter_files in Hrun. fold W in Hrun. rewrite Hrun in Hrun'.
    injection Hrun' as <-. exists st. unfold filter_files. fold W.
    split; [exact Hrun|]. split; [exact Hinv|]. split; [exact Hs|].
    split; [|exact Hdirs].
    intros w f data Hw Hgood. apply (Hdone w f data); [|exact Hw|exact Hgood].
    cbn [app]. apply list_elem_of_In, in_flat_map. exists w.
    split; [by apply list_elem_of_In|]. apply in_map.
    apply list_elem_of_In. by destruct Hgood.
Qed.

(** X16: the files [filter_files] leaves in the prepared destination are
    exactly the readable regular files of the walk that pass the filter, each
    at the path it has below the source directory and with the bytes of the
    source file; nothing that fails the filter and no changed content is
    written. *)
Theorem filter_files_copies_exactly source_dir source target_dir filter_mode :
  well_formed source = true ->
  exists st,
    filter_files source_dir source target_dir filter_mode fresh_reference = Done st
    /\ (forall q data,
           dest st !! q = Some (DFile data) <->
           exists w f, w ∈ walk source_dir [] source
                       /\ good_file filter_mode w f data /\ q = w_rel w ++ [f.1])
    /\ (forall q data,
           dest st !! q = Some (DFile data) ->
           lookup_node source q = Some (File data true)).
Proof.
  intros Hwf.
  destruct (filter_files_contents source_dir source target_dir filter_mode Hwf)
    as (st & Hrun & _ & Hs & Hdone & _).
  exists st. split; [exact Hrun|]. split.
  - intros q data. split; [apply Hs|].
    intros (w & f & Hw & Hgood & ->). by apply (Hdone w f data).
  - intros q data Hq. destruct (Hs q data Hq) as (w & f & Hw & (Hf & Hdata & _) & ->).
    rewrite <- Hdata. by apply (walk_file_lookup source source_dir).
Qed.

Lemma filter_files_copies_exactly_witness :
  well_formed Sample.checkout = true
  /\ exists st,
      filter_files "/tmp/tmpa1b2c3d4" Sample.checkout "/home/u/proj/reference"
        "exclude_code" fresh_reference = Done st
      /\ (forall q data,
             dest st !! q = Some (DFile data) <->
             exists w f, w ∈ walk "/tmp/tmpa1b2c3d4" [] Sample.checkout
                         /\ good_file "exclude_code" w f data /\ q = w_rel w ++ [f.1])
      /\ (forall q data,
             dest st !! q = Some (DFile data) ->
             lookup_node Sample.checkout q = Some (File data true)).
Proof.
  split; [reflexivity|].
  exact (filter_files_copies_exactly "/tmp/tmpa1b2c3d4" Sample.checkout
           "/home/u/proj/reference" "exclude_code" eq_refl).
Defined.

Lemma lookup_node_prefix n q k es :
  lookup_node n (q ++ k) = Some (Dir es) ->
  exists es', lookup_node n q = Some (Dir es').
Proof.
  rewrite lookup_node_app. destruct (lookup_node n q) as [c|]; [|discriminate].
  destruct k as [|x k]; cbn [lookup_node].
  - intros [= ->]. eauto.
  - destruct c as [| |es0]; try discriminate. eauto.
Qed.

(** X17: the directories [filter_files] leaves in the prepared destination
    are exactly the directories of the source tree, at the same paths:
    it makes every one of them and no other. *)
Theorem filter_files_directories source_dir es target_dir filter_mode :
  well_formed (Dir es) = true ->
  exists st,
    filter_files source_dir (Dir es) target_dir filter_mode fresh_reference = Done st
    /\ forall q, dest st !! q = Some DDir
                 <-> exists es', lookup_node (Dir es) q = Some (Dir es').
Proof.
  intros Hwf.
  destruct (filter_files_contents source_dir (Dir es) target_dir filter_mode Hwf)
    as (st & Hrun & [Hd _] & _ & _ & Hdirs).
  exists st. split; [exact Hrun|]. intros q. split.
  - intros Hq. destruct (Hd q Hq) as [-> | (w & Hw & [k Hk])]; [cbn; eauto|].
    destruct (walk_dir_lookup (Dir es) source_dir [] w Hwf Hw)
      as (p & es' & Hrel & Hlook & _).
    cbn [app] in Hrel. rewrite <- Hrel, Hk in Hlook.
    by eapply lookup_node_prefix.
  - intros [es' Hq].
    destruct (walk_reaches q (Dir es) source_dir [] es' Hq) as (w & Hw & Hrel).
    cbn [app] in Hrel. rewrite <- Hrel. by apply Hdirs.
Qed.

Lemma filter_files_directories_witness :
  well_formed Sample.checkout = true
  /\ exists st,
      filter_files "/tmp/tmpa1b2c3d4" Sample.checkout "/home/u/proj/reference"
        "markdown_only" fresh_reference = Done st
      /\ forall q, dest st !! q = Some DDir
                   <-> exists es', lookup_node Sample.checkout q = Some (Dir es').
Proof.
  split; [reflexivity|].
  exact (filter_files_directories "/tmp/tmpa1b2c3d4"
           [(".git", Dir [("HEAD", Sample.file); ("hook.py", Sample.file)]);
            ("empty", Dir []);
            ("src", Dir [("x.py", Sample.file)])]
           "/home/u/proj/reference" "markdown_only" eq_refl).
Defined.

(** ** The policy of the modes that test the file name *)

(** A file of the tree is a file of the walk. *)
Lemma lookup_file_walked source root dir name n :
  well_formed source = true ->
  lookup_node source (dir ++ [name]) = Some n ->
  is_dir n = false ->
  exists w, w ∈ walk root [] source /\ w_rel w = dir /\ (name, n) ∈ w_files w.
Proof.
  intros Hwf Hn Hnd. rewrite lookup_node_app in Hn.
  destruct (lookup_node source dir) as [c|] eqn:Hdir; [|discriminate].
  cbn [lookup_node] in Hn. destruct c as [| |es]; try discriminate.
  destruct (find_entry name es) as [c|] eqn:Hf; [|discriminate].
  injection Hn as ->.
  destruct (walk_reaches dir source root [] es Hdir) as (w & Hw & Hrel).
  cbn [app] in Hrel.
  destruct (walk_dir_lookup source root [] w Hwf Hw)
    as (p & es' & Hrel' & Hlook & Hfiles & _).
  cbn [app] in Hrel'. rewrite Hrel in Hrel'. subst p.
  rewrite Hdir in Hlook. injection Hlook as <-.
  exists w. split; [exact Hw|]. split; [exact Hrel|].
  rewrite Hfiles. apply elem_of_non_dirs. split; [by apply find_entry_elem|exact Hnd].
Qed.

Lemma walked_files_ext {A} keep keep' (f : walk_item -> string * node -> A) ws :
  (forall w x, keep w x = keep' w x) ->
  walked_files keep f ws = walked_files keep' f ws.
Proof.
  intros H. unfold walked_files. apply flat_map_ext. intros w.
  f_equal. apply List.filter_ext. intros x. apply H.
Qed.

(** In a mode whose test reads the file name alone, the files
    [filter_files] leaves in the destination are the readable regular files
    of the tree whose name passes the test, each at its place in the tree and
    with its bytes, and they are the files it returns. *)
Lemma filter_files_by_name keep source_dir source target_dir filter_mode :
  (forall file source_file, should_copy filter_mode file source_file = keep file) ->
  well_formed source = true ->
  exists st,
    filter_files source_dir source target_dir filter_mode fresh_reference = Done st
    /\ (forall dir name data,
           dest st !! (dir ++ [name]) = Some (DFile data)
           <-> lookup_node source (dir ++ [name]) = Some (File data true)
               /\ keep name = true)
    /\ copied_files st
       = walked_files (fun _ f => keep f.1 && copyable f.2)
           (target_file_of target_dir) (walk source_dir [] source).
Proof.
  intros Hkeep Hwf.
  destruct (filter_files_contents source_dir source target_dir filter_mode Hwf)
    as (st & Hrun & _ & Hs & Hdone & _).
  destruct (filter_files_spec source_dir source target_dir filter_mode Hwf)
    as (st' & Hrun' & Hc & _).
  rewrite Hrun in Hrun'. injection Hrun' as <-.
  exists st. split; [exact Hrun|]. split.
  - intros dir name data. split.
    + intros Hq. destruct (Hs _ _ Hq) as (w & f & Hw & (Hf & Hdata & Hpass) & Heq).
      apply app_inj_tail in Heq as [-> ->].
      unfold passes in Hpass. rewrite Hkeep in Hpass. split; [|exact Hpass].
      rewrite <- Hdata. by apply (walk_file_lookup source source_dir).
    + intros [Hlook Hk].
      destruct (lookup_file_walked source source_dir dir name _ Hwf Hlook eq_refl)
        as (w & Hw & <- & Hf).
      apply (Hdone w (name, File data true) data Hw).
      split; [exact Hf|]. split; [reflexivity|].
      unfold passes. cbn [fst]. by rewrite Hkeep.
  - rewrite Hc. apply walked_files_ext. intros w f.
    unfold copied_ok, passes. by rewrite Hkeep.
Qed.

(** C7 (the code at the failing input): the rows of [markdown_only] and
    [exclude_code] hold for every source tree: the files in the destination,
    and the files returned, are the readable regular files whose name is a
    markdown name, or is not a code name; the examples of the claim come out
    as it says.  The row of [light_filter] does not hold: the predicate
    rejects [node_modules/c.js] and [.git/HEAD] and accepts [a.md] and
    [b.py], and from the workspace [/tmp/tmpa1b2c3d4] these two are what is
    copied; from the workspace [/tmp/tmpbin4x2k_] nothing is copied, because
    the predicate is given the path that starts with the workspace. *)
Theorem light_filter_row_fails :
  let ref := "/home/u/proj/reference" in
  (forall source_dir source target_dir,
      well_formed source = true ->
      exists st,
        filter_files source_dir source target_dir "markdown_only" fresh_reference
        = Done st
        /\ (forall dir name data,
               dest st !! (dir ++ [name]) = Some (DFile data)
               <-> lookup_node source (dir ++ [name]) = Some (File data true)
                   /\ is_markdown_file name = true)
        /\ copied_files st
           = walked_files (fun _ f => is_markdown_file f.1 && copyable f.2)
               (target_file_of target_dir) (walk source_dir [] source))
  /\ (forall source_dir source target_dir,
         well_formed source = true ->
         exists st,
           filter_files source_dir source target_dir "exclude_code" fresh_reference
           = Done st
           /\ (forall dir name data,
                  dest st !! (dir ++ [name]) = Some (DFile data)
                  <-> lookup_node source (dir ++ [name]) = Some (File data true)
                      /\ negb (is_code_file name) = true)
           /\ copied_files st
              = walked_files (fun _ f => negb (is_code_file f.1) && copyable f.2)
                  (target_file_of target_dir) (walk source_dir [] source))
  /\ (exists st,
         filter_files "/tmp/tmpa1b2c3d4" Sample.four_files ref "markdown_only"
           fresh_reference = Done st
         /\ copied_files st
            = ["/home/u/proj/reference/./a.md"; "/home/u/proj/reference/./c.mdx"]
         /\ dest st !! ["a.md"] = Some (DFile Sample.text)
         /\ dest st !! ["b.py"] = None
         /\ dest st !! ["c.mdx"] = Some (DFile Sample.text)
         /\ dest st !! ["d.txt"] = None)
  /\ (exists st,
         filter_files "/tmp/tmpa1b2c3d4" Sample.three_files ref "exclude_code"
           fresh_reference = Done st
         /\ copied_files st = ["/home/u/proj/reference/./b.md"]
         /\ dest st !! ["a.py"] = None
         /\ dest st !! ["b.md"] = Some (DFile Sample.text)
         /\ dest st !! ["c.exe"] = None)
  /\ is_binary_or_generated_file "a.md" = false
  /\ is_binary_or_generated_file "b.py" = false
  /\ is_binary_or_generated_file "node_modules/c.js" = true
  /\ is_binary_or_generated_file ".git/HEAD" = true
  /\ (exists st,
         filter_files "/tmp/tmpa1b2c3d4" Sample.light_example ref "light_filter"
           fresh_reference = Done st
         /\ copied_files st
            = ["/home/u/proj/reference/./a.md"; "/home/u/proj/reference/./b.py"]
         /\ dest st !! ["a.md"] = Some (DFile Sample.text)
         /\ dest st !! ["b.py"] = Some (DFile Sample.text)
         /\ dest st !! ["node_modules"; "c.js"] = None
         /\ dest st !! [".git"; "HEAD"] = None)
  /\ (exists st,
         filter_files "/tmp/tmpbin4x2k_" Sample.light_example ref "light_filter"
           fresh_reference = Done st
         /\ copied_files st = []
         /\ dest st !! ["a.md"] = None
         /\ dest st !! ["b.py"] = None)
  /\ (let r := run "https://github.com/acme/widgets" Sample.target "light_filter"
                 (Sample.env_with "/tmp/tmpbin4x2k_" (inr Sample.light_example) true)
                 Sample.empty_world in
      succeeded r = true
      /\ reference r.1 !! ["a.md"] = None
      /\ reference r.1 !! ["b.py"] = None).
Proof.
  cbv zeta.
  split; [intros; by apply filter_files_by_name|].
  split; [intros; by apply filter_files_by_name|].
  repeat match goal with
         | |- _ /\ _ => split
         | |- exists st, _ = Done st /\ _ =>
             eexists; split; [vm_compute; reflexivity|]
         end;
    vm_compute; reflexivity.
Qed.
